(** * hello-2-nolibs: bootstrap of a second thread on a capability kernel

    Shallow embedding of [solutions/hello-2-nolibs/src/main.c]: the grant
    search [get_untyped] and the straight-line bootstrap in [main], run
    against a kernel that is a parameter of the development. *)

From Stdlib Require Import ZArith List Lia Bool String.
From stdpp Require Import base option list gmap.
Import ListNotations.
Local Open Scope Z_scope.

(** ** Machine integers *)

(** An unsigned [w]-bit value: conversion of [x] to the type wraps. *)
Definition wrap (w x : Z) : Z := x mod 2 ^ w.

(** [int] is 32 bits wide; conversion to it wraps to the signed range. *)
Definition INT_MAX : Z := 2 ^ 31 - 1.
Definition to_int (x : Z) : Z := (x + 2 ^ 31) mod 2 ^ 32 - 2 ^ 31.

(** ** Platform constants

    The headers [sel4/sel4.h], [utils/arith.h] and [utils/time.h] are not
    part of the sources: what [main.c] takes from them is a parameter. *)
Record platform := {
  word_bits : Z;                  (* width of seL4_Word, seL4_CPtr, uintptr_t, unsigned long *)
  seL4_TCBBits : Z;
  seL4_MinSchedContextBits : Z;
  seL4_MaxPrio : Z;
  seL4_CapNull : Z;
  seL4_CapInitThreadTCB : Z;
  seL4_CapInitThreadCNode : Z;
  seL4_CapInitThreadPD : Z;
  seL4_NilData : Z;
  US_IN_MS : Z;
  thread_2 : Z;                   (* address of the function thread_2 *)
  thread_2_stack : Z              (* address of the array thread_2_stack *)
}.

(** [sizeof(seL4_Word)], in bytes. *)
Definition sizeof_Word (P : platform) : Z := word_bits P / 8.

(** [#define THREAD_2_STACK_SIZE 512], an array of [uint64_t]. *)
Definition THREAD_2_STACK_SIZE : Z := 512.
Definition sizeof_thread_2_stack : Z := THREAD_2_STACK_SIZE * 8.

(** Modelled from the spec: the macro [BIT] of [utils/arith.h] is missing
    from the sources; the size class [n] of a grant stands for [2 ^ n]
    bytes.  As the shift [1ul << n] of C it is undefined for [n] at or above
    the width of [unsigned long]. *)
Definition BIT (P : platform) (n : Z) : option Z :=
  if (0 <=? n) && (n <? word_bits P) then Some (2 ^ n) else None.

(** [1u << n] on a 32-bit [unsigned int]. *)
Definition shl_1u (n : Z) : option Z :=
  if (0 <=? n) && (n <? 32) then Some (2 ^ n) else None.

(** ** Boot info (the fields [main.c] reads) *)

Record seL4_SlotRegion := { start : Z; end_ : Z }.

Record seL4_UntypedDesc := { sizeBits : Z }.

Record seL4_BootInfo := {
  nodeID : Z;
  ipcBuffer : Z;
  empty : seL4_SlotRegion;
  untyped : seL4_SlotRegion;
  schedcontrol : seL4_SlotRegion;
  untypedList : list seL4_UntypedDesc
}.

(** ** get_untyped

    The loop of [get_untyped], at [int i] with [untypedList[idx..]] still to
    read.  [None] is undefined behaviour of the C program: a read past the
    descriptor array, a shift by the word width or more, or [++i] at
    [INT_MAX].  The comparisons convert [i] and [size_bytes] to
    [unsigned long]; the result converts [i], or [-1], to [seL4_CPtr]. *)
Fixpoint get_untyped_loop (P : platform) (end_cap : Z) (size_bytes : Z)
    (rest : list seL4_UntypedDesc) (i : Z) : option Z :=
  if wrap (word_bits P) i <? end_cap then
    match rest with
    | [] => None
    | d :: rest' =>
        match BIT P (sizeBits d) with
        | None => None
        | Some b =>
            if b >=? wrap (word_bits P) size_bytes then Some (wrap (word_bits P) i)
            else if i =? INT_MAX then None
            else get_untyped_loop P end_cap size_bytes rest' (i + 1)
        end
    end
  else Some (wrap (word_bits P) (-1)).

Definition get_untyped_scan (P : platform) (info : seL4_BootInfo) (size_bytes : Z)
    : option Z :=
  get_untyped_loop P (end_ (untyped info)) size_bytes (untypedList info)
                   (to_int (start (untyped info))).

(** The value [get_untyped] returns when no untyped is large enough. *)
Definition no_untyped (P : platform) : Z := wrap (word_bits P) (-1).

(** ** Kernel interface *)

Inductive object_type := seL4_TCBObject | seL4_SchedContextObject.

(** [seL4_UserContext], with the fields of the declaration quoted in
    [main.c], in their order. *)
Record seL4_UserContext := {
  eip : Z; esp : Z; eflags : Z; eax : Z; ebx : Z; ecx : Z; edx : Z;
  esi : Z; edi : Z; ebp : Z; tls_base : Z; fs : Z; gs : Z
}.

(** The kernel invocations [main] makes, with their arguments in the order
    of the calls. *)
Inductive invocation :=
| seL4_Untyped_Retype (service : Z) (type : object_type)
    (size_bits root node_index node_depth node_offset num_objects : Z)
| seL4_SchedControl_Configure (service schedcontext budget period extra_refills : Z)
| seL4_TCB_Configure (service fault_ep : Z) (priority : Z * Z)
    (sched_context cspace_root cspace_root_data vspace_root vspace_root_data
     buffer bufferFrame : Z)
| seL4_TCB_WriteRegisters (service resume_target arch_flags count : Z)
    (regs : seL4_UserContext)
| seL4_TCB_Resume (service : Z).

(** Calls that return nothing to [main]. *)
Inductive ext_call :=
| seL4_SetUserData (data : Z)
| zf_log_set_tag_prefix (prefix : string)
| name_thread (tcb : Z) (name : string)
| debug_print_bootinfo
| printf (text : string).

Inductive event :=
| Called (c : ext_call)
| Invoked (i : invocation) (error : Z).

(** The fatal log sites of [main], named by their messages; those raised by
    [ZF_LOGF_IFERR] carry the error code. *)
Inductive fatal :=
| Failed_to_allocate_a_TCB_object (error : Z)
| Failed_to_allocate_a_SC_object (error : Z)
| Failed_to_find_sched_control
| Failed_to_configure_scheduling_context (error : Z)
| Failed_to_configure_TCB_object (error : Z)
| Stack_top_isnt_aligned_correctly (requirement : Z)
| Failed_to_write_the_new_threads_register_set (error : Z)
| Failed_to_start_new_thread (error : Z).

Inductive outcome (A : Type) :=
| Ret (a : A)
| Abort (f : fatal)
| Undefined.
Arguments Ret {A} a.
Arguments Abort {A} f.
Arguments Undefined {A}.

Definition seL4_NoError : Z := 0.

Definition newline : string := String (Ascii.ascii_of_nat 10) EmptyString.

Section Bootstrap.

Variable P : platform.
(** The kernel: a state and the effect of an invocation on it, with the
    error code it returns. *)
Variable K : Type.
Variable syscall : invocation -> K -> Z * K.

(** What the program runs in: the boot info [info] points to, and the
    kernel. *)
Record world := {
  w_info : seL4_BootInfo;
  w_kernel : K
}.

(** A run ends in an outcome and a world, and has made calls. *)
Record run (A : Type) := {
  result : outcome A;
  final : world;
  events : list event
}.
Arguments result {A} r.
Arguments final {A} r.
Arguments events {A} r.

Definition M (A : Type) : Type := world -> run A.

#[local] Instance M_ret : MRet M := fun A a w =>
  {| result := Ret a; final := w; events := [] |}.
#[local] Instance M_bind : MBind M := fun A B f m w =>
  let r := m w in
  match result r with
  | Ret a =>
      let r' := f a (final r) in
      {| result := result r'; final := final r';
         events := events r ++ events r' |}
  | Abort e => {| result := Abort e; final := final r; events := events r |}
  | Undefined => {| result := Undefined; final := final r; events := events r |}
  end.

Definition read_info : M seL4_BootInfo := fun w =>
  {| result := Ret (w_info w); final := w; events := [] |}.

Definition call (c : ext_call) : M unit := fun w =>
  {| result := Ret tt; final := w; events := [Called c] |}.

Definition invoke (i : invocation) : M Z := fun w =>
  let (error, k) := syscall i (w_kernel w) in
  {| result := Ret error;
     final := {| w_info := w_info w; w_kernel := k |};
     events := [Invoked i error] |}.

(** A C expression whose evaluation may be undefined. *)
Definition defined {A} (o : option A) : M A := fun w =>
  {| result := match o with Some a => Ret a | None => Undefined end;
     final := w; events := [] |}.

(** Modelled from the spec: the macros [ZF_LOGF_IF] and [ZF_LOGF_IFERR]
    ([utils/zf_log.h], [sel4utils/sel4_zf_logif.h]) are missing from the
    sources; a failure aborts the whole bootstrap sequence. *)
Definition ZF_LOGF_IF (cond : bool) (f : fatal) : M unit := fun w =>
  {| result := if cond then Abort f else Ret tt; final := w; events := [] |}.
Definition ZF_LOGF_IFERR (error : Z) (f : Z -> fatal) : M unit :=
  ZF_LOGF_IF (negb (error =? seL4_NoError)) (f error).

(** [seL4_CPtr get_untyped(seL4_BootInfo *info, int size_bytes)] *)
Definition get_untyped (size_bytes : Z) : M Z :=
  info ← read_info; defined (get_untyped_scan P info size_bytes).

Definition W : Z := word_bits P.

(** *** The steps of [main] *)

(** Lines 119-144: find an untyped for a TCB and retype it into [tcb_cap]. *)
Definition create_tcb (cspace_cap tcb_cap : Z) : M unit :=
  size ← defined (BIT P (seL4_TCBBits P));
  untyped ← get_untyped (to_int size);
  error ← invoke (seL4_Untyped_Retype untyped seL4_TCBObject (seL4_TCBBits P)
                    cspace_cap cspace_cap 32 tcb_cap 1);
  ZF_LOGF_IFERR error Failed_to_allocate_a_TCB_object.

(** Lines 156-172: the same for a scheduling context, into [sc_cap]. *)
Definition create_sc (cspace_cap sc_cap : Z) : M unit :=
  size ← defined (shl_1u (seL4_MinSchedContextBits P));
  untyped ← get_untyped (to_int size);
  error ← invoke (seL4_Untyped_Retype untyped seL4_SchedContextObject
                    (seL4_MinSchedContextBits P)
                    cspace_cap cspace_cap 32 sc_cap 1);
  ZF_LOGF_IFERR error Failed_to_allocate_a_SC_object.

(** Lines 174-194: configure the scheduling context through the scheduling
    control capability of the current node.  [main] passes
    [10 * US_IN_MS] for both [budget] and [period], and no extra refills. *)
Definition configure_sc (sc_cap budget period extra_refills : Z) : M unit :=
  info ← read_info;
  let sched_control := wrap W (start (schedcontrol info) + nodeID info) in
  ZF_LOGF_IF (sched_control =? seL4_CapNull P) Failed_to_find_sched_control;;
  error ← invoke (seL4_SchedControl_Configure sched_control sc_cap
                    budget period extra_refills);
  ZF_LOGF_IFERR error Failed_to_configure_scheduling_context.

(** Lines 197-205: initialise the new TCB and name the thread. *)
Definition configure_tcb (tcb_cap sc_cap cspace_cap pd_cap : Z) : M unit :=
  error ← invoke (seL4_TCB_Configure tcb_cap (seL4_CapNull P)
                    (seL4_MaxPrio P, seL4_MaxPrio P) sc_cap
                    cspace_cap (seL4_NilData P) pd_cap (seL4_NilData P) 0 0);
  ZF_LOGF_IFERR error Failed_to_configure_TCB_object;;
  call (name_thread tcb_cap "hello-2: thread_2").

(** Lines 207-244: check the stack top, build [regs] and write two
    registers.  [main] passes the address of [thread_2] and
    [thread_2_stack + sizeof(thread_2_stack)]. *)
Definition write_registers (tcb_cap entry thread_2_stack_top : Z) : M unit :=
  let stack_alignment_requirement := to_int (sizeof_Word P * 2) in
  ZF_LOGF_IF (negb (thread_2_stack_top mod
                      wrap W stack_alignment_requirement =? 0))
             (Stack_top_isnt_aligned_correctly stack_alignment_requirement);;
  let regs := {| eip := wrap W entry; esp := wrap W thread_2_stack_top;
                 eflags := 0; eax := 0; ebx := 0; ecx := 0; edx := 0;
                 esi := 0; edi := 0; ebp := 0; tls_base := 0;
                 fs := 0; gs := 0 |} in
  error ← invoke (seL4_TCB_WriteRegisters tcb_cap 0 0 2 regs);
  ZF_LOGF_IFERR error Failed_to_write_the_new_threads_register_set.

(** Lines 247-248: start the new thread. *)
Definition resume (tcb_cap : Z) : M unit :=
  error ← invoke (seL4_TCB_Resume tcb_cap);
  ZF_LOGF_IFERR error Failed_to_start_new_thread.

(** [int main(void)], from the point where [get_bootinfo] has returned. *)
Definition main : M Z :=
  info ← read_info;
  call (seL4_SetUserData (wrap W (ipcBuffer info)));;
  call (zf_log_set_tag_prefix "hello-2:");;
  call (name_thread (seL4_CapInitThreadTCB P) "hello-2");;
  call debug_print_bootinfo;;
  let cspace_cap := seL4_CapInitThreadCNode P in
  let pd_cap := seL4_CapInitThreadPD P in
  let tcb_cap := start (empty info) in
  create_tcb cspace_cap tcb_cap;;
  let sc_cap := wrap W (tcb_cap + 1) in
  create_sc cspace_cap sc_cap;;
  configure_sc sc_cap (wrap 64 (10 * US_IN_MS P)) (wrap 64 (10 * US_IN_MS P)) 0;;
  configure_tcb tcb_cap sc_cap cspace_cap pd_cap;;
  let thread_2_stack_top := wrap W (thread_2_stack P + sizeof_thread_2_stack) in
  write_registers tcb_cap (thread_2 P) thread_2_stack_top;;
  resume tcb_cap;;
  call (printf (String.append "main: hello world" newline));;
  mret 0.

End Bootstrap.

Arguments w_info {K} w.
Arguments w_kernel {K} w.
Arguments Build_world {K} w_info w_kernel.
Arguments result {K A} r.
Arguments final {K A} r.
Arguments events {K A} r.
Arguments Build_run {K A} result final events.

(** The slots that the retype invocations of a run name as destination. *)
Definition retype_slot (e : event) : option Z :=
  match e with
  | Invoked (seL4_Untyped_Retype _ _ _ _ _ _ node_offset _) _ => Some node_offset
  | _ => None
  end.
Definition retype_slots (log : list event) : list Z := omap retype_slot log.

(** The untyped capabilities that the retype invocations of a run consume. *)
Definition retype_untyped (e : event) : option Z :=
  match e with
  | Invoked (seL4_Untyped_Retype service _ _ _ _ _ _ _) _ => Some service
  | _ => None
  end.
Definition retype_untypeds (log : list event) : list Z := omap retype_untyped log.

(** What an invocation does to which slot, whatever it returns. *)
Inductive landmark :=
| Retype_into (slot : Z)
| Policy_onto (sc : Z)
| Configure_of (tcb : Z)
| Load_of (tcb : Z)
| Resume_of (tcb : Z).

Definition landmark_of (e : event) : option landmark :=
  match e with
  | Invoked (seL4_Untyped_Retype _ _ _ _ _ _ node_offset _) _ =>
      Some (Retype_into node_offset)
  | Invoked (seL4_SchedControl_Configure _ sc _ _ _) _ => Some (Policy_onto sc)
  | Invoked (seL4_TCB_Configure tcb _ _ _ _ _ _ _ _ _) _ => Some (Configure_of tcb)
  | Invoked (seL4_TCB_WriteRegisters tcb _ _ _ _) _ => Some (Load_of tcb)
  | Invoked (seL4_TCB_Resume tcb) _ => Some (Resume_of tcb)
  | Called _ => None
  end.
Definition landmarks (log : list event) : list landmark := omap landmark_of log.

Definition slot_retyped (l : landmark) : option Z :=
  match l with Retype_into slot => Some slot | _ => None end.

(** ** The kernel objects of the specification

    The code behind the kernel invocations is missing from the sources.
    This module models it from sections 3, 4 and 7 of the specification:
    grants that are retired by their conversion, scheduling contexts that
    take one policy, and execution contexts that go from unconfigured to
    configured to runnable. *)
Module SpecKernel.

(** Modelled from the spec: the error kinds of section 7; [Rejected] stands
    for a refusal for which the specification names no kind. *)
Inductive error_kind :=
| ExhaustedSlots | NoSuitableGrant | NoSchedulingControl | InvalidPolicy
| AlreadyBound | ConfigurationFailed | MisalignedStack | ResumeFailed
| AlreadyRunning | Rejected.

Definition code (e : error_kind) : Z :=
  match e with
  | ExhaustedSlots => 1 | NoSuitableGrant => 2 | NoSchedulingControl => 3
  | InvalidPolicy => 4 | AlreadyBound => 5 | ConfigurationFailed => 6
  | MisalignedStack => 7 | ResumeFailed => 8 | AlreadyRunning => 9
  | Rejected => 10
  end.

(** Modelled from the spec: the run state of an execution context
    (section 3). *)
Inductive run_state := unconfigured | configured | runnable.

Record policy := {
  p_budget : Z; p_period : Z; p_extra_refills : Z; p_control : Z
}.

Record thread := {
  t_state : run_state;
  t_loaded : bool;                 (* registers were loaded *)
  t_registers : list Z;            (* instruction pointer first, stack pointer second *)
  t_sched_context : option Z;
  t_cspace_root : Z;
  t_vspace_root : Z
}.

Record sched_context := {
  sc_policy : option policy;
  sc_thread : option Z
}.

Inductive object :=
| ThreadObject (t : thread)
| SchedContextObject (s : sched_context).

Record kernel := {
  grants : gmap Z Z;               (* untyped capability to size class, not yet retired *)
  objects : gmap Z object;         (* slot to typed object *)
  controls : gset Z;               (* scheduling control authorities *)
  roots : gset Z                   (* capability-space and address-space roots *)
}.

(** The registers of a user context in the order the kernel reads them. *)
Definition frame (r : seL4_UserContext) : list Z :=
  [eip r; esp r; eflags r; eax r; ebx r; ecx r; edx r; esi r; edi r;
   ebp r; tls_base r; fs r; gs r].

(** Modelled from the spec: an execution context as its creation leaves
    it, unconfigured and with every register zero (section 4.5). *)
Definition created_thread : thread :=
  {| t_state := unconfigured; t_loaded := false;
     t_registers := replicate 13 0;
     t_sched_context := None; t_cspace_root := 0; t_vspace_root := 0 |}.

Definition created (type : object_type) : object :=
  match type with
  | seL4_TCBObject => ThreadObject created_thread
  | seL4_SchedContextObject =>
      SchedContextObject {| sc_policy := None; sc_thread := None |}
  end.

Definition with_objects (k : kernel) (o : gmap Z object) : kernel :=
  {| grants := grants k; objects := o; controls := controls k; roots := roots k |}.

(** Modelled from the spec: [seL4_Untyped_Retype] is missing from the
    sources; it is the conversion of a grant (section 4.3).  A grant is
    converted once: on success it is retired and the typed object is bound
    to the slot.  A retired or unknown grant, and a slot that already owns
    an object, are refused. *)
Definition retype (untyped : Z) (type : object_type) (slot : Z) (k : kernel)
    : Z * kernel :=
  match grants k !! untyped, objects k !! slot with
  | Some _, None =>
      (seL4_NoError,
       {| grants := delete untyped (grants k);
          objects := <[slot := created type]> (objects k);
          controls := controls k; roots := roots k |})
  | None, _ => (code NoSuitableGrant, k)
  | Some _, Some _ => (code Rejected, k)
  end.

Definition valid_policy (budget period : Z) : bool :=
  (0 <? period) && (0 <? budget) && (budget <=? period).

(** Modelled from the spec: [seL4_SchedControl_Configure] is missing from
    the sources; it is [bind_policy] (section 4.4).  [NoSchedulingControl]
    without a control authority, [InvalidPolicy] for a period or budget
    that is not positive or a budget above the period, [AlreadyBound] for a
    second binding. *)
Definition bind_policy (control sc budget period extra_refills : Z) (k : kernel)
    : Z * kernel :=
  if decide (control ∈ controls k) then
    if valid_policy budget period then
      match objects k !! sc with
      | Some (SchedContextObject s) =>
          match sc_policy s with
          | Some _ => (code AlreadyBound, k)
          | None =>
              (seL4_NoError,
               with_objects k
                 (<[sc := SchedContextObject
                      {| sc_policy := Some {| p_budget := budget; p_period := period;
                                              p_extra_refills := extra_refills;
                                              p_control := control |};
                         sc_thread := sc_thread s |}]> (objects k)))
          end
      | _ => (code Rejected, k)
      end
    else (code InvalidPolicy, k)
  else (code NoSchedulingControl, k).

(** Modelled from the spec: [seL4_TCB_Configure] is missing from the
    sources; it is [configure] (section 4.5).  The only transition from
    [unconfigured]; it fails with [ConfigurationFailed] for an invalid
    root, and for a scheduling context handle that is invalid or already
    associated with an execution context. *)
Definition configure (tcb sc cspace vspace : Z) (k : kernel) : Z * kernel :=
  match objects k !! tcb, objects k !! sc with
  | Some (ThreadObject t), Some (SchedContextObject s) =>
      match t_state t, sc_thread s with
      | unconfigured, None =>
          if decide (cspace ∈ roots k ∧ vspace ∈ roots k) then
            (seL4_NoError,
             with_objects k
               (<[tcb := ThreadObject
                    {| t_state := configured; t_loaded := t_loaded t;
                       t_registers := t_registers t;
                       t_sched_context := Some sc;
                       t_cspace_root := cspace; t_vspace_root := vspace |}]>
                (<[sc := SchedContextObject
                     {| sc_policy := sc_policy s; sc_thread := Some tcb |}]>
                 (objects k))))
          else (code ConfigurationFailed, k)
      | _, _ => (code ConfigurationFailed, k)
      end
  | _, _ => (code ConfigurationFailed, k)
  end.

(** Modelled from the spec: [seL4_TCB_WriteRegisters] is missing from the
    sources; it is the register write of [load_registers] (section 4.5),
    whose alignment check is the program's.  A transition from [configured]
    to [configured] that writes the first [count] registers of the context,
    the instruction pointer first and the stack pointer second, and leaves
    the others as they are. *)
Definition load (tcb count : Z) (regs : seL4_UserContext) (k : kernel)
    : Z * kernel :=
  match objects k !! tcb with
  | Some (ThreadObject t) =>
      match t_state t with
      | configured =>
          (seL4_NoError,
           with_objects k
             (<[tcb := ThreadObject
                  {| t_state := configured; t_loaded := true;
                     t_registers := take (Z.to_nat count) (frame regs)
                                    ++ drop (Z.to_nat count) (t_registers t);
                     t_sched_context := t_sched_context t;
                     t_cspace_root := t_cspace_root t;
                     t_vspace_root := t_vspace_root t |}]> (objects k)))
      | _ => (code Rejected, k)
      end
  | _ => (code Rejected, k)
  end.

(** Modelled from the spec: [seL4_TCB_Resume] is missing from the sources;
    it is [resume] (section 4.5).  [AlreadyRunning] once runnable;
    [ResumeFailed] unless the context is configured and its registers were
    loaded. *)
Definition start_thread (tcb : Z) (k : kernel) : Z * kernel :=
  match objects k !! tcb with
  | Some (ThreadObject t) =>
      match t_state t with
      | runnable => (code AlreadyRunning, k)
      | configured =>
          if t_loaded t then
            (seL4_NoError,
             with_objects k
               (<[tcb := ThreadObject
                    {| t_state := runnable; t_loaded := true;
                       t_registers := t_registers t;
                       t_sched_context := t_sched_context t;
                       t_cspace_root := t_cspace_root t;
                       t_vspace_root := t_vspace_root t |}]> (objects k)))
          else (code ResumeFailed, k)
      | unconfigured => (code ResumeFailed, k)
      end
  | _ => (code ResumeFailed, k)
  end.

Definition syscall (i : invocation) (k : kernel) : Z * kernel :=
  match i with
  | seL4_Untyped_Retype untyped type _ _ _ _ slot _ => retype untyped type slot k
  | seL4_SchedControl_Configure control sc budget period extra_refills =>
      bind_policy control sc budget period extra_refills k
  | seL4_TCB_Configure tcb _ _ sc cspace _ vspace _ _ _ =>
      configure tcb sc cspace vspace k
  | seL4_TCB_WriteRegisters tcb _ _ count regs => load tcb count regs k
  | seL4_TCB_Resume tcb => start_thread tcb k
  end.

(** *** Sequences of invocations *)

(** The kernel serves the invocations of [calls] in turn. *)
Fixpoint serve (calls : list invocation) (k : kernel) : list event * kernel :=
  match calls with
  | [] => ([], k)
  | i :: calls' =>
      let (error, k1) := syscall i k in
      let (evs, k2) := serve calls' k1 in
      (Invoked i error :: evs, k2)
  end.

(** The transitions of the execution context at [tcb] that an event
    records: a [configure], [load_registers] or [resume] that succeeded. *)
Inductive transition := Configured | Loaded | Resumed.

#[export] Instance transition_eq_dec : EqDecision transition.
Proof. solve_decision. Defined.

Definition success (tcb : Z) (e : event) : option transition :=
  match e with
  | Invoked (seL4_TCB_Configure t _ _ _ _ _ _ _ _ _) error =>
      if (t =? tcb) && (error =? seL4_NoError) then Some Configured else None
  | Invoked (seL4_TCB_WriteRegisters t _ _ _ _) error =>
      if (t =? tcb) && (error =? seL4_NoError) then Some Loaded else None
  | Invoked (seL4_TCB_Resume t) error =>
      if (t =? tcb) && (error =? seL4_NoError) then Some Resumed else None
  | _ => None
  end.

Definition successes (tcb : Z) (evs : list event) : list transition :=
  omap (success tcb) evs.

(** No execution context at [tcb] yet, or one as the conversion left it. *)
Definition fresh (tcb : Z) (k : kernel) : Prop :=
  match objects k !! tcb with
  | Some (ThreadObject t) => t = created_thread
  | _ => True
  end.

(** The state of the execution context at [tcb] agrees with the
    transitions that succeeded so far. *)
Definition agrees (tcb : Z) (past : list transition) (k : kernel) : Prop :=
  match objects k !! tcb with
  | Some (ThreadObject t) =>
      match t_state t, t_loaded t with
      | unconfigured, false => past = [] ∧ t_registers t = replicate 13 0
      | configured, false => past = [Configured] ∧ t_registers t = replicate 13 0
      | configured, true => ∃ n, past = Configured :: replicate (S n) Loaded
      | runnable, true =>
          ∃ n, past = Configured :: replicate (S n) Loaded ++ [Resumed]
      | _, _ => False
      end
  | _ => past = []
  end.

(** The kernel state at the start of the bootstrap: the grants of the boot
    info, none retired, no typed object, the scheduling controls of the
    boot info and the two roots of the calling context. *)
Fixpoint enumerate_grants (first : Z) (l : list seL4_UntypedDesc) : gmap Z Z :=
  match l with
  | [] => ∅
  | d :: l' => <[first := sizeBits d]> (enumerate_grants (first + 1) l')
  end.

Definition boot (P : platform) (info : seL4_BootInfo) : kernel :=
  {| grants := enumerate_grants (start (untyped info))
                 (take (Z.to_nat (end_ (untyped info) - start (untyped info)))
                       (untypedList info));
     objects := ∅;
     controls := list_to_set
                   (seqZ (start (schedcontrol info))
                         (end_ (schedcontrol info) - start (schedcontrol info)));
     roots := {[ seL4_CapInitThreadCNode P; seL4_CapInitThreadPD P ]} |}.

End SpecKernel.

(** ** Well-formed inputs *)

Definition wf_platform (P : platform) : Prop :=
  word_bits P = 32 ∨ word_bits P = 64.

(** The untyped capabilities of the boot info: the slots fit [int], every
    slot of the region has a descriptor, and every size class is below the
    word width. *)
Definition grant_list (info : seL4_BootInfo) : list seL4_UntypedDesc :=
  take (Z.to_nat (end_ (untyped info) - start (untyped info))) (untypedList info).

Definition wf_untyped (P : platform) (info : seL4_BootInfo) : Prop :=
  0 ≤ start (untyped info) ≤ end_ (untyped info) ∧
  end_ (untyped info) ≤ INT_MAX ∧
  end_ (untyped info) - start (untyped info) ≤ Z.of_nat (length (untypedList info)) ∧
  Forall (λ d, 0 ≤ sizeBits d < word_bits P) (grant_list info).

(** The first grant of [l] that holds [size] bytes, counted from [first]. *)
Definition first_fit (P : platform) (size first : Z) (l : list seL4_UntypedDesc) : Z :=
  match list_find (λ d, size ≤ 2 ^ sizeBits d) l with
  | Some (k, _) => first + Z.of_nat k
  | None => no_untyped P
  end.

(** ** Sample inputs *)

(** A 64-bit platform on which a thread object takes 4096 bytes and a
    scheduling context 65536. *)
Definition sample_platform : platform :=
  {| word_bits := 64; seL4_TCBBits := 12; seL4_MinSchedContextBits := 16;
     seL4_MaxPrio := 255; seL4_CapNull := 0; seL4_CapInitThreadTCB := 1;
     seL4_CapInitThreadCNode := 2; seL4_CapInitThreadPD := 3;
     seL4_NilData := 0; US_IN_MS := 1000;
     thread_2 := 4198400; thread_2_stack := 6291456 |}.

(** Grants of 4096 and 65536 bytes at the capabilities 50 and 51, the free
    slots [100,110), one scheduling control at 40 for node 0. *)
Definition sample_info : seL4_BootInfo :=
  {| nodeID := 0; ipcBuffer := 8192;
     empty := {| start := 100; end_ := 110 |};
     untyped := {| start := 50; end_ := 52 |};
     schedcontrol := {| start := 40; end_ := 41 |};
     untypedList := [ {| sizeBits := 12 |}; {| sizeBits := 16 |} ] |}.

Definition sample_world : world SpecKernel.kernel :=
  Build_world sample_info (SpecKernel.boot sample_platform sample_info).

(** ** Specifications of runs *)

Definition is_stack_abort (f : fatal) : bool :=
  match f with
  | Stack_top_isnt_aligned_correctly _ => true
  | _ => false
  end.

(** From a world whose boot info is [info], the computation [m] keeps the
    boot info, makes a prefix of the invocations of [script], does not
    abort with a fatal of [bad], and when it returns it returns a value of
    [Q] after having made all of [script]. *)
Definition obeys {K A} (bad : fatal -> bool) (info : seL4_BootInfo)
    (m : world K -> run K A) (Q : A -> Prop) (script : list landmark) : Prop :=
  ∀ w, w_info w = info →
    w_info (final (m w)) = info ∧
    landmarks (events (m w)) `prefix_of` script ∧
    (∀ f, result (m w) = Abort f → bad f = false) ∧
    (∀ a, result (m w) = Ret a → Q a ∧ landmarks (events (m w)) = script).

(** The sample boot info with a single free slot, [100,101). *)
Definition tight_info : seL4_BootInfo :=
  {| nodeID := nodeID sample_info; ipcBuffer := ipcBuffer sample_info;
     empty := {| start := 100; end_ := 101 |};
     untyped := untyped sample_info;
     schedcontrol := schedcontrol sample_info;
     untypedList := untypedList sample_info |}.

(** The sample platform with [thread_2_stack] at an address that is a
    multiple of 8 and not of 16. *)
Definition odd_stack_platform : platform :=
  {| word_bits := 64; seL4_TCBBits := 12; seL4_MinSchedContextBits := 16;
     seL4_MaxPrio := 255; seL4_CapNull := 0; seL4_CapInitThreadTCB := 1;
     seL4_CapInitThreadCNode := 2; seL4_CapInitThreadPD := 3;
     seL4_NilData := 0; US_IN_MS := 1000;
     thread_2 := 4198400; thread_2_stack := 6291464 |}.

(** A 64-bit platform on which a thread object takes 2048 bytes and a
    scheduling context 256. *)
Definition small_objects_platform : platform :=
  {| word_bits := 64; seL4_TCBBits := 11; seL4_MinSchedContextBits := 8;
     seL4_MaxPrio := 255; seL4_CapNull := 0; seL4_CapInitThreadTCB := 1;
     seL4_CapInitThreadCNode := 2; seL4_CapInitThreadPD := 3;
     seL4_NilData := 0; US_IN_MS := 1000;
     thread_2 := 4198400; thread_2_stack := 6291456 |}.

(** On the kernel of the specification, the computation [m] keeps the
    state of the execution context at [tcb] in agreement with the
    transitions that succeeded. *)
Definition tracks {A} (tcb : Z)
    (m : world SpecKernel.kernel -> run SpecKernel.kernel A) : Prop :=
  ∀ w past,
    SpecKernel.agrees tcb past (w_kernel w) →
    SpecKernel.agrees tcb (past ++ SpecKernel.successes tcb (events (m w)))
                      (w_kernel (final (m w))).

(** ** What [main] does with the answers of the kernel *)

(** The fatal that [main] raises when invocation [i] returns an error: the
    [ZF_LOGF_IFERR] that follows the call in the source. *)
Definition site (i : invocation) : Z -> fatal :=
  match i with
  | seL4_Untyped_Retype _ seL4_TCBObject _ _ _ _ _ _ =>
      Failed_to_allocate_a_TCB_object
  | seL4_Untyped_Retype _ seL4_SchedContextObject _ _ _ _ _ _ =>
      Failed_to_allocate_a_SC_object
  | seL4_SchedControl_Configure _ _ _ _ _ => Failed_to_configure_scheduling_context
  | seL4_TCB_Configure _ _ _ _ _ _ _ _ _ _ => Failed_to_configure_TCB_object
  | seL4_TCB_WriteRegisters _ _ _ _ _ => Failed_to_write_the_new_threads_register_set
  | seL4_TCB_Resume _ => Failed_to_start_new_thread
  end.

(** The fatals of the two checks [main] makes by itself, with [ZF_LOGF_IF]. *)
Definition own_check (f : fatal) : bool :=
  match f with
  | Failed_to_find_sched_control | Stack_top_isnt_aligned_correctly _ => true
  | _ => false
  end.

(** An event that is no invocation with an error. *)
Definition succeeded (e : event) : Prop :=
  match e with
  | Invoked _ error => error = seL4_NoError
  | Called _ => True
  end.

(** A run stops at the first error: every invocation succeeded, except
    that an aborted run may end with the invocation whose error it
    reports. *)
Definition fail_stop {K A} (r : run K A) : Prop :=
  match result r with
  | Ret _ | Undefined => Forall succeeded (events r)
  | Abort f =>
      (own_check f = true ∧ Forall succeeded (events r)) ∨
      ∃ evs i e, events r = evs ++ [Invoked i e] ∧ Forall succeeded evs ∧
                 e ≠ seL4_NoError ∧ f = site i e
  end.

(** The invocations of [main] with the arguments the source gives them,
    for the boot info [info]. *)
Definition expected (P : platform) (info : seL4_BootInfo) (e : event) : Prop :=
  let cspace_cap := seL4_CapInitThreadCNode P in
  let pd_cap := seL4_CapInitThreadPD P in
  let tcb_cap := start (empty info) in
  let sc_cap := wrap (word_bits P) (tcb_cap + 1) in
  let thread_2_stack_top :=
    wrap (word_bits P) (thread_2_stack P + sizeof_thread_2_stack) in
  match e with
  | Called _ => True
  | Invoked (seL4_Untyped_Retype service seL4_TCBObject size_bits root node_index
               node_depth node_offset num_objects) _ =>
      (∃ size, BIT P (seL4_TCBBits P) = Some size ∧
               get_untyped_scan P info (to_int size) = Some service) ∧
      size_bits = seL4_TCBBits P ∧ root = cspace_cap ∧ node_index = cspace_cap ∧
      node_depth = 32 ∧ node_offset = tcb_cap ∧ num_objects = 1
  | Invoked (seL4_Untyped_Retype service seL4_SchedContextObject size_bits root
               node_index node_depth node_offset num_objects) _ =>
      (∃ size, shl_1u (seL4_MinSchedContextBits P) = Some size ∧
               get_untyped_scan P info (to_int size) = Some service) ∧
      size_bits = seL4_MinSchedContextBits P ∧ root = cspace_cap ∧
      node_index = cspace_cap ∧ node_depth = 32 ∧ node_offset = sc_cap ∧
      num_objects = 1
  | Invoked (seL4_SchedControl_Configure service schedcontext budget period
               extra_refills) _ =>
      service = wrap (word_bits P) (start (schedcontrol info) + nodeID info) ∧
      service ≠ seL4_CapNull P ∧ schedcontext = sc_cap ∧
      budget = wrap 64 (10 * US_IN_MS P) ∧ period = wrap 64 (10 * US_IN_MS P) ∧
      extra_refills = 0
  | Invoked (seL4_TCB_Configure service fault_ep priority sched_context cspace_root
               cspace_root_data vspace_root vspace_root_data buffer bufferFrame) _ =>
      service = tcb_cap ∧ fault_ep = seL4_CapNull P ∧
      priority = (seL4_MaxPrio P, seL4_MaxPrio P) ∧ sched_context = sc_cap ∧
      cspace_root = cspace_cap ∧ cspace_root_data = seL4_NilData P ∧
      vspace_root = pd_cap ∧ vspace_root_data = seL4_NilData P ∧
      buffer = 0 ∧ bufferFrame = 0
  | Invoked (seL4_TCB_WriteRegisters service resume_target arch_flags count regs) _ =>
      service = tcb_cap ∧ resume_target = 0 ∧ arch_flags = 0 ∧ count = 2 ∧
      thread_2_stack_top mod wrap (word_bits P) (to_int (sizeof_Word P * 2)) = 0 ∧
      regs = {| eip := wrap (word_bits P) (thread_2 P);
                esp := wrap (word_bits P) thread_2_stack_top;
                eflags := 0; eax := 0; ebx := 0; ecx := 0; edx := 0;
                esi := 0; edi := 0; ebp := 0; tls_base := 0; fs := 0; gs := 0 |}
  | Invoked (seL4_TCB_Resume service) _ => service = tcb_cap
  end.

(** From a world whose boot info is [info], the computation [m] keeps the
    boot info and makes only events of [Φ]; it returns a value of [Q],
    aborts with a fatal of [E], or is undefined only if [U]. *)
Definition hoare {K A} (info : seL4_BootInfo) (Φ : event -> Prop)
    (E : fatal -> Prop) (U : Prop)
    (m : world K -> run K A) (Q : A -> Prop) : Prop :=
  ∀ w, w_info w = info →
    w_info (final (m w)) = info ∧
    Forall Φ (events (m w)) ∧
    match result (m w) with
    | Ret a => Q a
    | Abort f => E f
    | Undefined => U
    end.

(** A kernel that answers every invocation with [seL4_NoError]. *)
Definition accept_all (i : invocation) (k : unit) : Z * unit := (seL4_NoError, k).

Definition INT_MIN : Z := - 2 ^ 31.

(** The computation [m] stops at the first error, from every world. *)
Definition stops {K A} (m : world K -> run K A) : Prop := ∀ w, fail_stop (m w).


(** * Properties *)

#[local] Existing Instances M_ret M_bind.

Section Arith.
Variable P : platform.
Hypothesis HP : wf_platform P.

Lemma word_bits_bounds : 32 ≤ word_bits P ≤ 64.
Proof. destruct HP as [-> | ->]; lia. Qed.

Lemma two_pow_word : 2 ^ 32 ≤ 2 ^ word_bits P.
Proof. destruct HP as [-> | ->]; lia. Qed.

Lemma wrap_small x : 0 ≤ x < 2 ^ 32 → wrap (word_bits P) x = x.
Proof.
  intros Hx. unfold wrap. apply Z.mod_small. pose proof two_pow_word. lia.
Qed.

Lemma to_int_small x : 0 ≤ x ≤ INT_MAX → to_int x = x.
Proof.
  unfold to_int, INT_MAX. intros Hx.
  rewrite Z.mod_small; lia.
Qed.

Lemma no_untyped_eq : no_untyped P = 2 ^ word_bits P - 1.
Proof. unfold no_untyped, wrap. destruct HP as [-> | ->]; reflexivity. Qed.

Lemma BIT_defined n : 0 ≤ n < word_bits P → BIT P n = Some (2 ^ n).
Proof.
  intros Hn. unfold BIT.
  destruct (Z.leb_spec 0 n), (Z.ltb_spec n (word_bits P)); simpl; auto; lia.
Qed.

Lemma get_untyped_loop_first_fit end_cap size rest i :
  0 ≤ size ≤ INT_MAX →
  0 ≤ i ≤ end_cap → end_cap ≤ INT_MAX →
  end_cap - i ≤ Z.of_nat (length rest) →
  Forall (λ d, 0 ≤ sizeBits d < word_bits P) (take (Z.to_nat (end_cap - i)) rest) →
  get_untyped_loop P end_cap size rest i
  = Some (first_fit P size i (take (Z.to_nat (end_cap - i)) rest)).
Proof.
  intros Hsize. revert i.
  induction rest as [|d rest IH]; intros i Hi Hend Hlen Hbits.
  - simpl in Hlen. assert (i = end_cap) as -> by lia.
    cbn [get_untyped_loop].
    rewrite (wrap_small end_cap) by (unfold INT_MAX in *; lia).
    rewrite Z.ltb_irrefl, take_nil. reflexivity.
  - cbn [get_untyped_loop].
    rewrite (wrap_small i) by (unfold INT_MAX in *; lia).
    rewrite (wrap_small size) by (unfold INT_MAX in *; lia).
    destruct (Z.ltb_spec i end_cap) as [Hlt | Hge].
    + assert (Z.to_nat (end_cap - i) = S (Z.to_nat (end_cap - (i + 1)))) as Hn by lia.
      rewrite Hn in *. cbn [take] in *.
      apply Forall_cons in Hbits as [Hd Hbits].
      rewrite BIT_defined by assumption.
      unfold first_fit. cbn [list_find].
      destruct (Z.geb_spec (2 ^ sizeBits d) size) as [Hfit | Hsmall].
      * rewrite decide_True by lia. simpl. f_equal. lia.
      * rewrite decide_False by lia.
        destruct (Z.eqb_spec i INT_MAX) as [-> | _]; [lia|].
        rewrite IH; [|lia|lia|simpl in Hlen; lia|assumption].
        unfold first_fit. f_equal.
        destruct (list_find _ _) as [[k x]|]; simpl; [lia|reflexivity].
    + assert (i = end_cap) as -> by lia.
      rewrite Z.sub_diag. reflexivity.
Qed.

Lemma get_untyped_scan_first_fit info size :
  wf_untyped P info → 0 ≤ size ≤ INT_MAX →
  get_untyped_scan P info size
  = Some (first_fit P size (start (untyped info)) (grant_list info)).
Proof.
  intros (Hse & Hend & Hlen & Hbits) Hsize. unfold get_untyped_scan.
  rewrite to_int_small by lia.
  apply get_untyped_loop_first_fit; auto.
Qed.
End Arith.

Lemma sample_platform_wf : wf_platform sample_platform.
Proof. right. reflexivity. Qed.

Lemma sample_info_wf : wf_untyped sample_platform sample_info.
Proof.
  unfold wf_untyped, grant_list, INT_MAX. simpl.
  repeat split; try lia.
  repeat constructor; simpl; lia.
Qed.

(** ** The grant search *)

Section GrantSearch.
Variable P : platform.
Variable K : Type.
Implicit Types w : world K.

Lemma get_untyped_run w size :
  get_untyped P K size w
  = {| result := match get_untyped_scan P (w_info w) size with
                 | Some c => Ret c
                 | None => Undefined
                 end;
       final := w; events := [] |}.
Proof.
  unfold get_untyped, read_info, defined, mbind, M_bind. simpl.
  destruct (get_untyped_scan P (w_info w) size); reflexivity.
Qed.

Lemma first_fit_found size first l k d :
  l !! k = Some d → size ≤ 2 ^ sizeBits d →
  (∀ j d', (j < k)%nat → l !! j = Some d' → 2 ^ sizeBits d' < size) →
  first_fit P size first l = first + Z.of_nat k.
Proof.
  intros Hk Hd Hbefore. unfold first_fit.
  assert (list_find (λ d, size ≤ 2 ^ sizeBits d) l = Some (k, d)) as ->.
  { apply list_find_Some. split_and!; auto.
    intros j y Hj Hlt. specialize (Hbefore j y Hlt Hj). lia. }
  reflexivity.
Qed.

Lemma first_fit_none size first l :
  Forall (λ d, 2 ^ sizeBits d < size) l → first_fit P size first l = no_untyped P.
Proof.
  intros Hall. unfold first_fit.
  assert (list_find (λ d, size ≤ 2 ^ sizeBits d) l = None) as ->.
  { apply list_find_None. eapply Forall_impl; [exact Hall|]. simpl. lia. }
  reflexivity.
Qed.

(** C3: for a size requirement [size] that an [int] holds and a well-formed
    boot info, [get_untyped] returns the capability of the first untyped,
    in ascending capability order, whose [2 ^ sizeBits] bytes are at least
    [size]; when none is, it returns the failure value [(seL4_CPtr)-1],
    which is no capability of the untyped region.  The call changes
    nothing. *)
Theorem get_untyped_first_fit w size :
  wf_platform P → wf_untyped P (w_info w) → 0 ≤ size ≤ INT_MAX →
  (∀ k d, grant_list (w_info w) !! k = Some d →
          size ≤ 2 ^ sizeBits d →
          (∀ j d', (j < k)%nat → grant_list (w_info w) !! j = Some d' →
                   2 ^ sizeBits d' < size) →
          get_untyped P K size w
          = {| result := Ret (start (untyped (w_info w)) + Z.of_nat k);
               final := w; events := [] |}) ∧
  (Forall (λ d, 2 ^ sizeBits d < size) (grant_list (w_info w)) →
   get_untyped P K size w
   = {| result := Ret (no_untyped P); final := w; events := [] |}) ∧
  ¬ (start (untyped (w_info w)) ≤ no_untyped P < end_ (untyped (w_info w))).
Proof.
  intros HP Hwf Hsize. split_and!.
  - intros k d Hk Hd Hbefore.
    rewrite get_untyped_run, (get_untyped_scan_first_fit P HP) by assumption.
    erewrite first_fit_found; eauto.
  - intros Hnone.
    rewrite get_untyped_run, (get_untyped_scan_first_fit P HP) by assumption.
    rewrite first_fit_none; auto.
  - destruct Hwf as (_ & Hend & _). rewrite (no_untyped_eq P HP).
    pose proof (two_pow_word P HP). unfold INT_MAX in Hend. lia.
Qed.

(** A negative [size_bytes] is converted to [unsigned long] by the
    comparison with [BIT(sizeBits)], so no untyped is found for it. *)
Example get_untyped_negative_size :
  get_untyped_scan sample_platform sample_info (-1) = Some (no_untyped sample_platform).
Proof. reflexivity. Qed.

(** C9: [get_untyped] only reads: the world after the call, and with it the
    boot info (untyped list, untyped and empty slot regions), is the world
    before it, so a second call with the same arguments returns what the
    first returned; on a well-formed boot info the call returns a
    capability index. *)
Theorem get_untyped_pure_read w size :
  final (get_untyped P K size w) = w ∧
  w_info (final (get_untyped P K size w)) = w_info w ∧
  events (get_untyped P K size w) = [] ∧
  get_untyped P K size (final (get_untyped P K size w))
  = get_untyped P K size w ∧
  (wf_platform P → wf_untyped P (w_info w) → 0 ≤ size ≤ INT_MAX →
   ∃ c, get_untyped P K size w
        = {| result := Ret c; final := w; events := [] |}).
Proof.
  rewrite !get_untyped_run. simpl. split_and!; auto.
  intros HP Hwf Hsize.
  rewrite (get_untyped_scan_first_fit P HP) by assumption. eauto.
Qed.

End GrantSearch.

Lemma get_untyped_first_fit_witness :
  get_untyped sample_platform _ 65536 sample_world
  = {| result := Ret 51; final := sample_world; events := [] |}.
Proof.
  pose proof (get_untyped_first_fit sample_platform _ sample_world 65536 sample_platform_wf
                sample_info_wf) as H.
  destruct H as (Hfound & _ & _); [unfold INT_MAX; lia|].
  apply (Hfound 1%nat {| sizeBits := 16 |}); [reflexivity | simpl; lia |].
  intros [|j] d' Hj Hd'; [|lia].
  injection Hd' as <-. simpl. lia.
Defined.

Lemma get_untyped_pure_read_witness :
  ∃ c, get_untyped sample_platform _ 4096 sample_world
       = {| result := Ret c; final := sample_world; events := [] |}.
Proof.
  apply (get_untyped_pure_read sample_platform _ sample_world 4096).
  - exact sample_platform_wf.
  - exact sample_info_wf.
  - unfold INT_MAX. lia.
Defined.

(** ** Runs of the program against any kernel *)

Section Runs.
Variable P : platform.
Variable K : Type.
Variable syscall : invocation -> K -> Z * K.
Variable bad : fatal -> bool.
Variable info : seL4_BootInfo.
Implicit Types w : world K.

Lemma bind_run {A B} (m : M K A) (f : A → M K B) w :
  (m ≫= f) w
  = match result (m w) with
    | Ret a => {| result := result (f a (final (m w)));
                  final := final (f a (final (m w)));
                  events := events (m w) ++ events (f a (final (m w))) |}
    | Abort e => {| result := Abort e; final := final (m w); events := events (m w) |}
    | Undefined => {| result := Undefined; final := final (m w); events := events (m w) |}
    end.
Proof. reflexivity. Qed.

Lemma invoke_run i w :
  invoke K syscall i w
  = {| result := Ret (fst (syscall i (w_kernel w)));
       final := {| w_info := w_info w; w_kernel := snd (syscall i (w_kernel w)) |};
       events := [Invoked i (fst (syscall i (w_kernel w)))] |}.
Proof. unfold invoke. destruct (syscall i (w_kernel w)); reflexivity. Qed.

Lemma obeys_bind {A B} (m : M K A) (f : A → M K B) Q R l1 l2 :
  obeys bad info m Q l1 →
  (∀ a, Q a → obeys bad info (f a) R l2) →
  obeys bad info (m ≫= f) R (l1 ++ l2).
Proof.
  intros Hm Hf w Hw. rewrite bind_run.
  destruct (Hm w Hw) as (Hinfo & Hpre & Hbad & Hret).
  destruct (result (m w)) as [a| e |] eqn:Hres; simpl.
  - destruct (Hret a eq_refl) as [HQ Hslots].
    destruct (Hf a HQ (final (m w)) Hinfo) as (Hinfo' & Hpre' & Hbad' & Hret').
    unfold landmarks in *. rewrite omap_app, Hslots.
    split_and!; auto using prefix_app.
    intros b Hb. destruct (Hret' b Hb) as [HR ->]. auto.
  - split_and!; auto using prefix_app_r.
    + intros f0 [= <-]. auto.
    + discriminate.
  - split_and!; auto using prefix_app_r; discriminate.
Qed.

Lemma obeys_weaken {A} (m : M K A) (Q Q' : A → Prop) l :
  obeys bad info m Q l → (∀ a, Q a → Q' a) → obeys bad info m Q' l.
Proof.
  intros Hm HQ w Hw. destruct (Hm w Hw) as (? & ? & ? & Hret).
  split_and!; auto. intros a Ha. destruct (Hret a Ha). auto.
Qed.

Lemma obeys_ret {A} (a : A) : obeys bad info (mret a : M K A) (λ b, b = a) [].
Proof.
  intros w Hw. simpl. split_and!; auto; try discriminate.
  intros b [= <-]. auto.
Qed.

Lemma obeys_read_info : obeys bad info (read_info K) (λ i, i = info) [].
Proof.
  intros w Hw. simpl. split_and!; auto; try discriminate.
  intros b [= <-]. auto.
Qed.

Lemma obeys_call c : obeys bad info (call K c) (λ _, True) [].
Proof.
  intros w Hw. simpl. split_and!; auto; discriminate.
Qed.

Lemma obeys_defined {A} (o : option A) :
  obeys bad info (defined K o) (λ a, o = Some a) [].
Proof.
  intros w Hw. simpl. split_and!; auto.
  - destruct o; discriminate.
  - intros a Ha. destruct o; simplify_eq. auto.
Qed.

Lemma obeys_invoke i :
  obeys bad info (invoke K syscall i) (λ _, True)
        (landmarks [Invoked i 0]).
Proof.
  intros w Hw. unfold invoke. destruct (syscall i (w_kernel w)) as [e k].
  simpl. split_and!; auto; discriminate.
Qed.

Lemma obeys_invoke_retype service type size_bits root node_index node_depth
    node_offset num_objects :
  obeys bad info
        (invoke K syscall (seL4_Untyped_Retype service type size_bits root
                             node_index node_depth node_offset num_objects))
        (λ _, True) [Retype_into node_offset].
Proof. apply obeys_invoke. Qed.

Lemma obeys_invoke_policy service sc budget period extra_refills :
  obeys bad info
        (invoke K syscall (seL4_SchedControl_Configure service sc budget period
                             extra_refills))
        (λ _, True) [Policy_onto sc].
Proof. apply obeys_invoke. Qed.

Lemma obeys_invoke_configure tcb fault_ep priority sc cspace cdata vspace vdata
    buffer frame :
  obeys bad info
        (invoke K syscall (seL4_TCB_Configure tcb fault_ep priority sc cspace
                             cdata vspace vdata buffer frame))
        (λ _, True) [Configure_of tcb].
Proof. apply obeys_invoke. Qed.

Lemma obeys_invoke_load tcb resume_target arch_flags count regs :
  obeys bad info
        (invoke K syscall (seL4_TCB_WriteRegisters tcb resume_target arch_flags
                             count regs))
        (λ _, True) [Load_of tcb].
Proof. apply obeys_invoke. Qed.

Lemma obeys_invoke_resume tcb :
  obeys bad info (invoke K syscall (seL4_TCB_Resume tcb)) (λ _, True)
        [Resume_of tcb].
Proof. apply obeys_invoke. Qed.

Lemma obeys_ZF_LOGF_IF cond f :
  (cond = true → bad f = false) →
  obeys bad info (ZF_LOGF_IF K cond f) (λ _, cond = false) [].
Proof.
  intros Hf w Hw. simpl. split_and!; auto.
  - destruct cond; [intros ? [= <-]; auto | discriminate].
  - intros a. destruct cond; [discriminate | auto].
Qed.

Lemma obeys_ZF_LOGF_IFERR error f :
  (∀ e, bad (f e) = false) →
  obeys bad info (ZF_LOGF_IFERR K error f) (λ _, error = seL4_NoError) [].
Proof.
  intros Hf. unfold ZF_LOGF_IFERR.
  eapply obeys_weaken; [apply obeys_ZF_LOGF_IF; auto|].
  simpl. intros _ He. apply negb_false_iff, Z.eqb_eq in He. exact He.
Qed.

Lemma obeys_get_untyped size :
  obeys bad info (get_untyped P K size)
        (λ c, get_untyped_scan P info size = Some c) [].
Proof.
  intros w Hw. rewrite get_untyped_run. simpl. subst info. split_and!; auto.
  - destruct (get_untyped_scan _ _ _); discriminate.
  - intros a Ha. destruct (get_untyped_scan _ _ _); simplify_eq. auto.
Qed.

Lemma obeys_slots {A} (m : M K A) Q l l' :
  obeys bad info m Q l → l = l' → obeys bad info m Q l'.
Proof. intros Hm <-. exact Hm. Qed.

Hypothesis bad_stack_only : ∀ f, bad f = true → is_stack_abort f = true.

Lemma bad_other f : is_stack_abort f = false → bad f = false.
Proof.
  intros Hf. destruct (bad f) eqn:Hb; [|reflexivity].
  apply bad_stack_only in Hb. congruence.
Qed.

Ltac obeys_atom :=
  first [ apply obeys_read_info | apply obeys_call | apply obeys_defined
        | apply obeys_invoke_retype | apply obeys_invoke_policy
        | apply obeys_invoke_configure | apply obeys_invoke_load
        | apply obeys_invoke_resume
        | apply obeys_get_untyped | apply obeys_ret
        | apply obeys_ZF_LOGF_IFERR; intros; apply bad_other; reflexivity
        | apply obeys_ZF_LOGF_IF; intros; apply bad_other; reflexivity ].

Lemma obeys_bind_any {A B} (m : M K A) (f : A → M K B) Q l1 l2 :
  obeys bad info m Q l1 →
  (∀ a, Q a → ∃ R, obeys bad info (f a) R l2) →
  obeys bad info (m ≫= f) (λ _, True) (l1 ++ l2).
Proof.
  intros Hm Hf w Hw. rewrite bind_run.
  destruct (Hm w Hw) as (Hinfo & Hpre & Hbad & Hret).
  destruct (result (m w)) as [a| e |] eqn:Hres; simpl.
  - destruct (Hret a eq_refl) as [HQ Hslots].
    destruct (Hf a HQ) as [R HR].
    destruct (HR (final (m w)) Hinfo) as (Hinfo' & Hpre' & Hbad' & Hret').
    unfold landmarks in *. rewrite omap_app, Hslots.
    split_and!; auto using prefix_app.
    intros b Hb. destruct (Hret' b Hb) as [_ ->]. auto.
  - split_and!; auto using prefix_app_r.
    + intros f0 [= <-]. auto.
    + discriminate.
  - split_and!; auto using prefix_app_r; discriminate.
Qed.

Ltac obeys_chain :=
  eapply obeys_bind_any;
  [ obeys_atom | intros ? ?; eexists; first [ obeys_atom | obeys_chain ] ].

Lemma obeys_create_tcb cspace_cap tcb_cap :
  obeys bad info (create_tcb P K syscall cspace_cap tcb_cap) (λ _, True) [Retype_into tcb_cap].
Proof.
  eapply obeys_slots; [unfold create_tcb; obeys_chain | reflexivity].
Qed.

Lemma obeys_create_sc cspace_cap sc_cap :
  obeys bad info (create_sc P K syscall cspace_cap sc_cap) (λ _, True) [Retype_into sc_cap].
Proof.
  eapply obeys_slots; [unfold create_sc; obeys_chain | reflexivity].
Qed.

Lemma obeys_configure_sc sc_cap budget period extra_refills :
  obeys bad info (configure_sc P K syscall sc_cap budget period extra_refills)
        (λ _, True) [Policy_onto sc_cap].
Proof.
  eapply obeys_slots; [unfold configure_sc; obeys_chain | reflexivity].
Qed.

Lemma obeys_configure_tcb tcb_cap sc_cap cspace_cap pd_cap :
  obeys bad info (configure_tcb P K syscall tcb_cap sc_cap cspace_cap pd_cap)
        (λ _, True) [Configure_of tcb_cap].
Proof.
  eapply obeys_slots; [unfold configure_tcb; obeys_chain | reflexivity].
Qed.

Lemma obeys_resume tcb_cap :
  obeys bad info (resume K syscall tcb_cap) (λ _, True) [Resume_of tcb_cap].
Proof.
  eapply obeys_slots; [unfold resume; obeys_chain | reflexivity].
Qed.

(** The stack check of [write_registers] passes on a stack top that is a
    multiple of the alignment requirement. *)
Lemma obeys_write_registers tcb_cap entry thread_2_stack_top :
  (bad (Stack_top_isnt_aligned_correctly (to_int (sizeof_Word P * 2))) = true →
   thread_2_stack_top mod wrap (word_bits P) (to_int (sizeof_Word P * 2)) = 0) →
  obeys bad info (write_registers P K syscall tcb_cap entry thread_2_stack_top)
        (λ _, True) [Load_of tcb_cap].
Proof.
  intros Haligned.
  eapply obeys_slots.
  - unfold write_registers; cbv zeta.
    eapply obeys_bind_any; [|intros ? ?; eexists; obeys_chain].
    apply obeys_ZF_LOGF_IF. intros Hcond.
    destruct (bad _) eqn:Hb; [|reflexivity].
    unfold W in Hcond. rewrite Haligned in Hcond by reflexivity. discriminate.
  - reflexivity.
Qed.

Lemma obeys_main :
  (bad (Stack_top_isnt_aligned_correctly (to_int (sizeof_Word P * 2))) = true →
   wrap (word_bits P) (thread_2_stack P + sizeof_thread_2_stack)
     mod wrap (word_bits P) (to_int (sizeof_Word P * 2)) = 0) →
  obeys bad info (main P K syscall) (λ r, r = 0)
        [Retype_into (start (empty info));
         Retype_into (wrap (word_bits P) (start (empty info) + 1));
         Policy_onto (wrap (word_bits P) (start (empty info) + 1));
         Configure_of (start (empty info));
         Load_of (start (empty info));
         Resume_of (start (empty info))].
Proof.
  intros Haligned.
  eapply obeys_slots.
  - unfold main.
    eapply obeys_bind; [apply obeys_read_info|]. intros ? ->.
    do 4 (eapply obeys_bind; [apply obeys_call|]; intros _ _).
    cbv zeta.
    eapply obeys_bind; [apply obeys_create_tcb|]; intros _ _.
    eapply obeys_bind; [apply obeys_create_sc|]; intros _ _.
    eapply obeys_bind; [apply obeys_configure_sc|]; intros _ _.
    eapply obeys_bind; [apply obeys_configure_tcb|]; intros _ _.
    eapply obeys_bind; [apply obeys_write_registers; exact Haligned|]; intros _ _.
    eapply obeys_bind; [apply obeys_resume|]; intros _ _.
    eapply obeys_bind; [apply obeys_call|]; intros _ _.
    eapply obeys_weaken; [apply obeys_ret|]. auto.
  - reflexivity.
Qed.

End Runs.

(** ** The invocations of [main] *)

(** Against any kernel, the invocations of [main] are, in this order and
    at most once each: the conversion into [tcb_cap], the conversion into
    [sc_cap], the policy onto [sc_cap], then the configuration, the
    register write and the resume of [tcb_cap]; [main] returns 0 after the
    last one, and only then. *)
Lemma main_invocation_order P K syscall (w : world K) :
  let tcb_cap := start (empty (w_info w)) in
  let sc_cap := wrap (word_bits P) (tcb_cap + 1) in
  let script := [Retype_into tcb_cap; Retype_into sc_cap; Policy_onto sc_cap;
                 Configure_of tcb_cap; Load_of tcb_cap; Resume_of tcb_cap] in
  landmarks (events (main P K syscall w)) `prefix_of` script ∧
  (∀ r, result (main P K syscall w) = Ret r →
        r = 0 ∧ landmarks (events (main P K syscall w)) = script).
Proof.
  intros tcb_cap sc_cap script.
  destruct (obeys_main P K syscall (λ _, false) (w_info w)) with (w := w)
    as (_ & Hpre & _ & Hret); try discriminate; [reflexivity|].
  split; [exact Hpre | exact Hret].
Qed.

(** ** Slots *)

Lemma prefix_omap {A B} (f : A → option B) (l1 l2 : list A) :
  l1 `prefix_of` l2 → omap f l1 `prefix_of` omap f l2.
Proof. intros [k ->]. rewrite omap_app. by apply prefix_app_r. Qed.

Lemma retype_slots_landmarks evs :
  retype_slots evs = omap slot_retyped (landmarks evs).
Proof.
  unfold retype_slots, landmarks.
  induction evs as [|[c|[] e] evs IH]; [reflexivity|..]; csimpl;
    rewrite IH; reflexivity.
Qed.

Lemma prefix_of_pair {A} (l : list A) a b :
  l `prefix_of` [a; b] → l = [] ∨ l = [a] ∨ l = [a; b].
Proof.
  intros [k Hk]. destruct l as [|x [|y [|z l]]]; simplify_eq/=; auto.
Qed.

(** C2, as the program has it: [main] takes its two slots, [empty.start]
    and [empty.start + 1], without reading [empty.end]; when the free
    region holds at least two slots, the slots [main] retypes into are a
    prefix of these two (both of them when [main] returns), lie in the
    region, and are strictly increasing, hence pairwise distinct. *)
Theorem main_slots_increasing P K syscall (w : world K) :
  0 ≤ start (empty (w_info w)) →
  start (empty (w_info w)) + 2 ≤ end_ (empty (w_info w)) →
  end_ (empty (w_info w)) ≤ 2 ^ word_bits P →
  let first := start (empty (w_info w)) in
  let slots := retype_slots (events (main P K syscall w)) in
  slots `prefix_of` [first; first + 1] ∧
  (∀ r, result (main P K syscall w) = Ret r → slots = [first; first + 1]) ∧
  Forall (λ s, first ≤ s < end_ (empty (w_info w))) slots ∧
  (∀ i j a b, (i < j)%nat → slots !! i = Some a → slots !! j = Some b → a < b).
Proof.
  intros Hstart Hsize Hend first slots.
  destruct (obeys_main P K syscall (λ _, false) (w_info w)) with (w := w)
    as (_ & Hpre & _ & Hret); try discriminate; [reflexivity|].
  fold first in Hpre, Hret.
  assert (wrap (word_bits P) (first + 1) = first + 1) as Hwrap.
  { unfold wrap. apply Z.mod_small. lia. }
  rewrite Hwrap in Hpre, Hret.
  apply (prefix_omap slot_retyped) in Hpre.
  rewrite <- retype_slots_landmarks in Hpre. fold slots in Hpre.
  assert (∀ r, result (main P K syscall w) = Ret r → slots = [first; first + 1])
    as Hall.
  { intros r Hr. destruct (Hret r Hr) as [_ Hscript].
    unfold slots. rewrite retype_slots_landmarks, Hscript. reflexivity. }
  clearbody slots. clear Hret.
  split_and!; auto.
  - simpl in Hpre. apply prefix_of_pair in Hpre as [-> | [-> | ->]];
      repeat constructor; lia.
  - intros i j a b Hij Hi Hj. simpl in Hpre.
    apply prefix_of_pair in Hpre as [Hs | [Hs | Hs]]; rewrite Hs in Hi, Hj;
      destruct i as [|[|i]], j as [|[|j]]; simplify_eq/=; lia.
Qed.

Lemma main_slots_increasing_witness :
  retype_slots (events (main sample_platform _ SpecKernel.syscall sample_world))
    `prefix_of` [100; 101].
Proof.
  apply (main_slots_increasing sample_platform _ SpecKernel.syscall sample_world);
    simpl; lia.
Defined.

(** C2 as stated fails: with a single free slot [100,101), the slot taken
    after the region is exhausted is 101, an identifier outside the region;
    nothing fails, and [main] returns. *)
Lemma main_slots_unchecked :
  let w := Build_world tight_info (SpecKernel.boot sample_platform tight_info) in
  let r := main sample_platform _ SpecKernel.syscall w in
  end_ (empty tight_info) - start (empty tight_info) = 1 ∧
  result r = Ret 0 ∧
  retype_slots (events r) = [100; 101] ∧
  ¬ 101 < end_ (empty tight_info).
Proof. vm_compute. split_and!; try reflexivity. discriminate. Qed.

(** ** Stack alignment *)

Lemma stack_top_aligned P :
  wf_platform P →
  thread_2_stack P mod 8 = 0 →
  (word_bits P = 64 → thread_2_stack P mod 16 = 0) →
  wrap (word_bits P) (thread_2_stack P + sizeof_thread_2_stack)
    mod wrap (word_bits P) (to_int (sizeof_Word P * 2)) = 0.
Proof.
  intros [HW | HW] H8 H16; unfold wrap, sizeof_Word; rewrite HW.
  - change (to_int (32 / 8 * 2) mod 2 ^ 32) with 8.
    rewrite Z.mod_mod_divide by (exists (2 ^ 29); reflexivity).
    change sizeof_thread_2_stack with (512 * 8).
    rewrite Z.mod_add by lia. exact H8.
  - change (to_int (64 / 8 * 2) mod 2 ^ 64) with 16.
    rewrite Z.mod_mod_divide by (exists (2 ^ 60); reflexivity).
    change sizeof_thread_2_stack with (256 * 16).
    rewrite Z.mod_add by lia. auto.
Qed.

(** C10, as the program has it: the stack check of [main] never fires when
    [thread_2_stack], an array of [uint64_t] at a multiple of 8, is also at
    a multiple of twice the word size: always with 4-byte words, and with
    8-byte words when its address is a multiple of 16. *)
Theorem main_stack_check_passes P K syscall (w : world K) requirement :
  wf_platform P →
  thread_2_stack P mod 8 = 0 →
  (word_bits P = 64 → thread_2_stack P mod 16 = 0) →
  result (main P K syscall w) ≠ Abort (Stack_top_isnt_aligned_correctly requirement).
Proof.
  intros HP H8 H16 Habort.
  destruct (obeys_main P K syscall is_stack_abort (w_info w)) with (w := w)
    as (_ & _ & Hbad & _); auto using stack_top_aligned.
  specialize (Hbad _ Habort). discriminate.
Qed.

Lemma main_stack_check_passes_witness :
  result (main sample_platform _ SpecKernel.syscall sample_world)
  ≠ Abort (Stack_top_isnt_aligned_correctly 16).
Proof.
  apply main_stack_check_passes.
  - exact sample_platform_wf.
  - reflexivity.
  - intros _. reflexivity.
Defined.

(** C10 as stated fails: with 8-byte words the requirement is 16, and an
    array at a multiple of 8 that is not a multiple of 16 makes the stack
    check of [main] fire. *)
Lemma main_stack_check_fires :
  let P := odd_stack_platform in
  sizeof_Word P ≤ 8 ∧
  thread_2_stack P mod 8 = 0 ∧
  result (main P _ SpecKernel.syscall
            (Build_world sample_info (SpecKernel.boot P sample_info)))
  = Abort (Stack_top_isnt_aligned_correctly 16).
Proof. vm_compute. split_and!; try reflexivity. discriminate. Qed.

Lemma alignment_requirement P :
  wf_platform P →
  to_int (sizeof_Word P * 2) = 2 * sizeof_Word P ∧
  wrap (word_bits P) (to_int (sizeof_Word P * 2)) = 2 * sizeof_Word P.
Proof.
  intros [HW | HW]; unfold wrap, sizeof_Word; rewrite HW; split; reflexivity.
Qed.

Lemma ZF_LOGF_IFERR_run K error f (w : world K) :
  ZF_LOGF_IFERR K error f w
  = {| result := if error =? seL4_NoError then Ret tt else Abort (f error);
       final := w; events := [] |}.
Proof.
  unfold ZF_LOGF_IFERR, ZF_LOGF_IF. destruct (error =? seL4_NoError); reflexivity.
Qed.

(** An invocation followed by [ZF_LOGF_IFERR] on its error code. *)
Lemma invoke_checked_run K syscall i f (w : world K) :
  (invoke K syscall i ≫= λ error, ZF_LOGF_IFERR K error f) w
  = {| result := if fst (syscall i (w_kernel w)) =? seL4_NoError then Ret tt
                 else Abort (f (fst (syscall i (w_kernel w))));
       final := {| w_info := w_info w;
                   w_kernel := snd (syscall i (w_kernel w)) |};
       events := [Invoked i (fst (syscall i (w_kernel w)))] |}.
Proof.
  rewrite bind_run, invoke_run. cbn [result final events].
  rewrite ZF_LOGF_IFERR_run. reflexivity.
Qed.

Lemma write_registers_run P K syscall (w : world K) tcb_cap entry sp :
  wf_platform P → 0 ≤ sp < 2 ^ word_bits P →
  let regs := {| eip := wrap (word_bits P) entry; esp := sp;
                 eflags := 0; eax := 0; ebx := 0; ecx := 0; edx := 0;
                 esi := 0; edi := 0; ebp := 0; tls_base := 0;
                 fs := 0; gs := 0 |} in
  let i := seL4_TCB_WriteRegisters tcb_cap 0 0 2 regs in
  write_registers P K syscall tcb_cap entry sp w
  = if sp mod (2 * sizeof_Word P) =? 0 then
      {| result := if fst (syscall i (w_kernel w)) =? seL4_NoError then Ret tt
                   else Abort (Failed_to_write_the_new_threads_register_set
                                 (fst (syscall i (w_kernel w))));
         final := {| w_info := w_info w;
                     w_kernel := snd (syscall i (w_kernel w)) |};
         events := [Invoked i (fst (syscall i (w_kernel w)))] |}
    else
      {| result := Abort (Stack_top_isnt_aligned_correctly (2 * sizeof_Word P));
         final := w; events := [] |}.
Proof.
  intros HP Hsp regs i.
  destruct (alignment_requirement P HP) as [Hint Hreq].
  assert (wrap (word_bits P) sp = sp) as Hwrap
    by (unfold wrap; apply Z.mod_small; exact Hsp).
  unfold write_registers, W. cbv zeta. rewrite Hreq, Hint, Hwrap.
  fold regs i. rewrite bind_run. cbn [ZF_LOGF_IF result final events].
  destruct (sp mod (2 * sizeof_Word P) =? 0); cbn [negb]; [|reflexivity].
  rewrite invoke_checked_run. reflexivity.
Qed.

(** C7: the register-loading step of [main] rejects every stack pointer
    that is not a multiple of [2 * sizeof(seL4_Word)] with the fatal
    "Stack top isn't aligned correctly", before any invocation and without
    changing the value; for every stack pointer that is such a multiple the
    check passes and the pointer goes to the kernel as it is, in the second
    register of the context. *)
Theorem write_registers_alignment P K syscall (w : world K) tcb_cap entry sp :
  wf_platform P → 0 ≤ sp < 2 ^ word_bits P →
  let requirement := 2 * sizeof_Word P in
  let regs := {| eip := wrap (word_bits P) entry; esp := sp;
                 eflags := 0; eax := 0; ebx := 0; ecx := 0; edx := 0;
                 esi := 0; edi := 0; ebp := 0; tls_base := 0;
                 fs := 0; gs := 0 |} in
  let i := seL4_TCB_WriteRegisters tcb_cap 0 0 2 regs in
  (sp mod requirement ≠ 0 →
   write_registers P K syscall tcb_cap entry sp w
   = {| result := Abort (Stack_top_isnt_aligned_correctly requirement);
        final := w; events := [] |}) ∧
  (sp mod requirement = 0 →
   write_registers P K syscall tcb_cap entry sp w
   = {| result := if fst (syscall i (w_kernel w)) =? seL4_NoError then Ret tt
                  else Abort (Failed_to_write_the_new_threads_register_set
                                (fst (syscall i (w_kernel w))));
        final := {| w_info := w_info w;
                    w_kernel := snd (syscall i (w_kernel w)) |};
        events := [Invoked i (fst (syscall i (w_kernel w)))] |}).
Proof.
  intros HP Hsp requirement regs i.
  rewrite (write_registers_run P K syscall w tcb_cap entry sp HP Hsp).
  fold regs i requirement. split.
  - intros Hmis.
    destruct (Z.eqb_spec (sp mod requirement) 0); [contradiction|]. reflexivity.
  - intros ->. reflexivity.
Qed.

Lemma write_registers_alignment_witness :
  write_registers sample_platform _ SpecKernel.syscall 100 4198400 6295560 sample_world
  = {| result := Abort (Stack_top_isnt_aligned_correctly 16);
       final := sample_world; events := [] |}.
Proof.
  apply (write_registers_alignment sample_platform _ SpecKernel.syscall
           sample_world 100 4198400 6295560 sample_platform_wf).
  - simpl. lia.
  - vm_compute. discriminate.
Defined.

(** ** Consumed grants *)

Lemma first_fit_inv P size first l c :
  first_fit P size first l = c → c ≠ no_untyped P →
  ∃ k d, c = first + Z.of_nat k ∧ l !! k = Some d ∧ size ≤ 2 ^ sizeBits d ∧
         ∀ j y, l !! j = Some y → (j < k)%nat → 2 ^ sizeBits y < size.
Proof.
  unfold first_fit. intros Hc Hne.
  destruct (list_find _ l) as [[k d]|] eqn:Hfind; [|congruence].
  apply list_find_Some in Hfind as (Hk & Hd & Hbefore).
  exists k, d. split_and!; auto.
  intros j y Hj Hlt. specialize (Hbefore j y Hj Hlt). lia.
Qed.

(** C1, as the program has it: [get_untyped] keeps no record of the grants
    it has returned and a kernel invocation leaves the boot info as it is,
    so a grant that was found for [size1] and retyped is found again by a
    later search for [size2 >= size1] whenever it is large enough for
    [size2]; the later search passes over it, to a later capability or the
    failure value, only when [size2] exceeds its size. *)
Theorem consumed_grant_found_again P K syscall (w : world K) size1 size2 c i :
  wf_platform P → wf_untyped P (w_info w) →
  0 ≤ size1 ≤ size2 → size2 ≤ INT_MAX →
  result (get_untyped P K size1 w) = Ret c → c ≠ no_untyped P →
  let w' := final (invoke K syscall i w) in
  w_info w' = w_info w ∧
  ∃ d, grant_list (w_info w) !! Z.to_nat (c - start (untyped (w_info w))) = Some d ∧
       (size2 ≤ 2 ^ sizeBits d → result (get_untyped P K size2 w') = Ret c) ∧
       (2 ^ sizeBits d < size2 →
        ∃ c', result (get_untyped P K size2 w') = Ret c' ∧ c < c').
Proof.
  intros HP Hwf Hsizes Hmax Hfirst Hne w'.
  assert (w_info w' = w_info w) as Hinfo
    by (unfold w'; rewrite invoke_run; reflexivity).
  split; [exact Hinfo|].
  rewrite get_untyped_run in Hfirst. simpl in Hfirst.
  rewrite (get_untyped_scan_first_fit P HP) in Hfirst by (auto; lia).
  injection Hfirst as Hfirst.
  apply first_fit_inv in Hfirst as (k & d & -> & Hk & Hd & Hbefore); [|exact Hne].
  exists d. replace (Z.to_nat _) with k by lia.
  split; [exact Hk|].
  assert (∀ size, 0 ≤ size ≤ INT_MAX →
            result (get_untyped P K size w')
            = Ret (first_fit P size (start (untyped (w_info w))) (grant_list (w_info w))))
    as Hsearch.
  { intros size Hsize. rewrite get_untyped_run. simpl. rewrite Hinfo.
    rewrite (get_untyped_scan_first_fit P HP) by auto. reflexivity. }
  split.
  - intros Hfits. rewrite Hsearch by lia.
    erewrite first_fit_found; eauto.
    intros j d' Hj Hd'. specialize (Hbefore j d' Hd' Hj). lia.
  - intros Hsmall. rewrite Hsearch by lia. eexists; split; [reflexivity|].
    unfold first_fit.
    destruct (list_find _ _) as [[k' d']|] eqn:Hfind.
    + apply list_find_Some in Hfind as (Hk' & Hd' & Hbefore').
      destruct (Nat.lt_trichotomy k' k) as [Hlt | [-> | Hgt]].
      * specialize (Hbefore k' d' Hk' Hlt). lia.
      * rewrite Hk in Hk'. injection Hk' as <-. lia.
      * lia.
    + apply lookup_lt_Some in Hk.
      destruct Hwf as (Hse & Hend & _).
      unfold grant_list in Hk. rewrite length_take in Hk.
      rewrite (no_untyped_eq P HP). pose proof (two_pow_word P HP).
      unfold INT_MAX in Hend. lia.
Qed.

Lemma consumed_grant_found_again_witness :
  result (get_untyped small_objects_platform _ 256
            (final (invoke _ SpecKernel.syscall
                      (seL4_Untyped_Retype 50 seL4_TCBObject 11 2 2 32 100 1)
                      (Build_world sample_info
                         (SpecKernel.boot small_objects_platform sample_info)))))
  = Ret 50.
Proof.
  set (w := Build_world sample_info (SpecKernel.boot small_objects_platform sample_info)).
  destruct (consumed_grant_found_again small_objects_platform _ SpecKernel.syscall
              w 256 256 50
              (seL4_Untyped_Retype 50 seL4_TCBObject 11 2 2 32 100 1))
    as (_ & d & Hd & Hfound & _).
  - right. reflexivity.
  - exact sample_info_wf.
  - lia.
  - unfold INT_MAX. lia.
  - reflexivity.
  - vm_compute. discriminate.
  - apply Hfound. vm_compute in Hd. injection Hd as <-. simpl. lia.
Defined.

(** C1 as stated fails: on a platform whose two objects both fit the first
    grant, the grant at capability 50 is found and retyped into the thread
    object, the kernel of the specification retires it, and the next search
    returns capability 50 again; [main] then retypes the same untyped a second
    time. *)
Lemma consumed_grant_returned_again :
  let P := small_objects_platform in
  let w := Build_world sample_info (SpecKernel.boot P sample_info) in
  let r := create_tcb P _ SpecKernel.syscall 2 100 w in
  result r = Ret tt ∧
  events r = [Invoked (seL4_Untyped_Retype 50 seL4_TCBObject 11 2 2 32 100 1) 0] ∧
  SpecKernel.grants (w_kernel (final r)) !! 50 = None ∧
  result (get_untyped P _ 256 (final r)) = Ret 50 ∧
  retype_untypeds (events (main P _ SpecKernel.syscall w)) = [50; 50].
Proof. vm_compute. split_and!; reflexivity. Qed.

(** ** The kernel of the specification *)

Import SpecKernel.


Lemma code_nonzero e : (code e =? seL4_NoError) = false.
Proof. destruct e; reflexivity. Qed.

Lemma success_failed tcb i e : success tcb (Invoked i (code e)) = None.
Proof.
  destruct i; simpl; try reflexivity; rewrite code_nonzero, andb_false_r; reflexivity.
Qed.

Lemma agrees_other tcb past k o :
  objects k !! tcb = o !! tcb → agrees tcb past k → agrees tcb past (with_objects k o).
Proof. unfold agrees. simpl. intros <-. auto. Qed.

Lemma agrees_retype tcb past untyped type slot k :
  agrees tcb past k → agrees tcb past (snd (retype untyped type slot k)).
Proof.
  intros Hk. unfold retype.
  destruct (grants k !! untyped); [|exact Hk].
  destruct (objects k !! slot) eqn:Hslot; [exact Hk|].
  unfold agrees in *. simpl.
  destruct (decide (slot = tcb)) as [-> | Hne].
  - rewrite Hslot in Hk. rewrite lookup_insert_eq.
    destruct type; simpl; auto.
  - rewrite lookup_insert_ne by auto. exact Hk.
Qed.

Lemma agrees_bind_policy tcb past control sc budget period extra k :
  agrees tcb past k →
  agrees tcb past (snd (bind_policy control sc budget period extra k)).
Proof.
  intros Hk. unfold bind_policy.
  repeat case_match; simpl; try exact Hk.
  unfold agrees in *. simpl.
  destruct (decide (sc = tcb)) as [-> | Hne].
  - rewrite lookup_insert_eq. simplify_eq. 
    match goal with H : objects k !! tcb = _ |- _ => rewrite H in Hk end. exact Hk.
  - rewrite lookup_insert_ne by auto. exact Hk.
Qed.

Lemma successes_one tcb i e :
  successes tcb [Invoked i e]
  = option_list (success tcb (Invoked i e)).
Proof.
  unfold successes. generalize (success tcb). intros f. simpl.
  destruct (f _); reflexivity.
Qed.

Lemma agrees_configure tcb past t fault_ep priority sc cspace cdata vspace vdata
    buffer frame k :
  agrees tcb past k →
  agrees tcb
    (past ++ successes tcb
       [Invoked (seL4_TCB_Configure t fault_ep priority sc cspace cdata vspace
                   vdata buffer frame)
                (fst (configure t sc cspace vspace k))])
    (snd (configure t sc cspace vspace k)).
Proof.
  intros Hk. rewrite successes_one. unfold configure.
  destruct (objects k !! t) as [[th|s0]|] eqn:Ht;
    destruct (objects k !! sc) as [[th'|s]|] eqn:Hsc;
    try (cbn [fst snd option_list]; rewrite ?success_failed; cbn [option_list]; rewrite app_nil_r; exact Hk).
  destruct (t_state th) eqn:Hst;
    try (cbn [fst snd option_list]; rewrite ?success_failed; cbn [option_list]; rewrite app_nil_r; exact Hk).
  destruct (sc_thread s);
    try (cbn [fst snd option_list]; rewrite ?success_failed; cbn [option_list]; rewrite app_nil_r; exact Hk).
  case_decide;
    try (cbn [fst snd option_list]; rewrite ?success_failed; cbn [option_list]; rewrite app_nil_r; exact Hk).
  cbn [fst snd success]. rewrite Z.eqb_refl, andb_true_r.
  unfold agrees in *. simpl.
  destruct (Z.eqb_spec t tcb) as [-> | Hne].
  - rewrite lookup_insert_eq. rewrite Ht, Hst in Hk. simpl.
    destruct (t_loaded th); [contradiction|].
    destruct Hk as [-> Hregs]. auto.
  - rewrite lookup_insert_ne, app_nil_r by auto.
    destruct (decide (sc = tcb)) as [-> | Hne'].
    + rewrite lookup_insert_eq. rewrite Hsc in Hk. exact Hk.
    + rewrite lookup_insert_ne by auto. exact Hk.
Qed.

Lemma agrees_load tcb past t resume_target arch_flags count regs k :
  agrees tcb past k →
  agrees tcb
    (past ++ successes tcb
       [Invoked (seL4_TCB_WriteRegisters t resume_target arch_flags count regs)
                (fst (load t count regs k))])
    (snd (load t count regs k)).
Proof.
  intros Hk. rewrite successes_one. unfold load.
  destruct (objects k !! t) as [[th|]|] eqn:Ht;
    try (cbn [fst snd option_list]; rewrite ?success_failed; cbn [option_list]; rewrite app_nil_r; exact Hk).
  destruct (t_state th) eqn:Hst;
    try (cbn [fst snd option_list]; rewrite ?success_failed; cbn [option_list]; rewrite app_nil_r; exact Hk).
  cbn [fst snd success]. rewrite Z.eqb_refl, andb_true_r.
  unfold agrees in *. simpl.
  destruct (Z.eqb_spec t tcb) as [-> | Hne].
  - rewrite lookup_insert_eq. rewrite Ht, Hst in Hk. simpl.
    destruct (t_loaded th).
    + destruct Hk as [n ->]. exists (S n).
      cbn [option_list app]. f_equal.
      rewrite <- replicate_cons_app. reflexivity.
    + destruct Hk as [-> _]. exists 0%nat. reflexivity.
  - rewrite lookup_insert_ne, app_nil_r by auto. exact Hk.
Qed.

Lemma agrees_start_thread tcb past t k :
  agrees tcb past k →
  agrees tcb
    (past ++ successes tcb [Invoked (seL4_TCB_Resume t) (fst (start_thread t k))])
    (snd (start_thread t k)).
Proof.
  intros Hk. rewrite successes_one. unfold start_thread.
  destruct (objects k !! t) as [[th|]|] eqn:Ht;
    try (cbn [fst snd option_list]; rewrite ?success_failed; cbn [option_list]; rewrite app_nil_r; exact Hk).
  destruct (t_state th) eqn:Hst;
    try (cbn [fst snd option_list]; rewrite ?success_failed; cbn [option_list]; rewrite app_nil_r; exact Hk).
  destruct (t_loaded th) eqn:Hl;
    try (cbn [fst snd option_list]; rewrite ?success_failed; cbn [option_list]; rewrite app_nil_r; exact Hk).
  cbn [fst snd success]. rewrite Z.eqb_refl, andb_true_r.
  unfold agrees in *. simpl.
  destruct (Z.eqb_spec t tcb) as [-> | Hne].
  - rewrite lookup_insert_eq. rewrite Ht, Hst, Hl in Hk. simpl.
    destruct Hk as [n ->]. exists n. reflexivity.
  - rewrite lookup_insert_ne, app_nil_r by auto. exact Hk.
Qed.

Lemma agrees_syscall tcb past i k :
  agrees tcb past k →
  agrees tcb (past ++ successes tcb [Invoked i (fst (syscall i k))])
         (snd (syscall i k)).
Proof.
  intros Hk. destruct i; cbn [syscall].
  - rewrite successes_one. simpl. rewrite app_nil_r. by apply agrees_retype.
  - rewrite successes_one. simpl. rewrite app_nil_r. by apply agrees_bind_policy.
  - by apply agrees_configure.
  - by apply agrees_load.
  - by apply agrees_start_thread.
Qed.

Lemma serve_snoc calls i k :
  serve (calls ++ [i]) k
  = (fst (serve calls k)
       ++ [Invoked i (fst (syscall i (snd (serve calls k))))],
     snd (syscall i (snd (serve calls k)))).
Proof.
  revert k. induction calls as [|j calls IH]; intros k; simpl.
  - destruct (syscall i k); reflexivity.
  - destruct (syscall j k) as [e k1]. rewrite IH.
    destruct (serve calls k1); reflexivity.
Qed.

Lemma agrees_serve tcb calls k :
  fresh tcb k →
  agrees tcb (successes tcb (fst (serve calls k))) (snd (serve calls k)).
Proof.
  intros Hfresh. induction calls as [|i calls IH] using rev_ind.
  - simpl. unfold fresh, agrees in *.
    destruct (objects k !! tcb) as [[t|]|]; auto. subst t. simpl. auto.
  - rewrite serve_snoc. simpl. unfold successes in *. rewrite omap_app.
    by apply agrees_syscall.
Qed.

Lemma no_resume_among_loads n :
  filter (λ s, s = Resumed) (replicate n Loaded) = [].
Proof. induction n as [|n IH]; [reflexivity|]. simpl. exact IH. Qed.

(** ** Runs of the program on the kernel of the specification *)

Section Tracks.
Variable P : platform.
Variable tcb : Z.

Lemma tracks_silent {A} (m : M kernel A) :
  (∀ w, w_kernel (final (m w)) = w_kernel w ∧ successes tcb (events (m w)) = []) →
  tracks tcb m.
Proof.
  intros Hm w past Hpast. destruct (Hm w) as [-> ->].
  rewrite app_nil_r. exact Hpast.
Qed.

Lemma tracks_bind {A B} (m : M kernel A) (f : A → M kernel B) :
  tracks tcb m → (∀ a, tracks tcb (f a)) → tracks tcb (m ≫= f).
Proof.
  intros Hm Hf w past Hpast. rewrite bind_run.
  specialize (Hm w past Hpast).
  destruct (result (m w)) as [a| |]; cbn [events final]; try exact Hm.
  unfold successes in *. rewrite omap_app, app_assoc.
  apply Hf. exact Hm.
Qed.

Lemma tracks_invoke i : tracks tcb (invoke kernel syscall i).
Proof.
  intros w past Hpast. rewrite invoke_run. cbn [events final w_kernel].
  apply agrees_syscall. exact Hpast.
Qed.

Ltac tracks_atom :=
  first [ apply tracks_invoke
        | apply tracks_silent; intros; split; reflexivity ].

Ltac tracks_chain :=
  repeat first [ tracks_atom | apply tracks_bind; [|intros ?] ].

Lemma tracks_get_untyped size : tracks tcb (get_untyped P kernel size).
Proof. unfold get_untyped. tracks_chain. Qed.

Lemma tracks_main : tracks tcb (main P kernel syscall).
Proof.
  unfold main, create_tcb, create_sc, configure_sc, configure_tcb,
    write_registers, resume, ZF_LOGF_IFERR.
  cbv zeta. tracks_chain; apply tracks_get_untyped.
Qed.

End Tracks.

(** From a kernel in which the execution context at [tcb] is fresh, a run
    of [main] leaves the context in agreement with the transitions that
    succeeded in the run, of which at most one is a resume. *)
Lemma main_resumes_once P tcb (w : world kernel) :
  fresh tcb (w_kernel w) →
  let r := main P kernel syscall w in
  agrees tcb (successes tcb (events r)) (w_kernel (final r)) ∧
  (length (filter (λ s, s = Resumed) (successes tcb (events r))) ≤ 1)%nat.
Proof.
  intros Hfresh r.
  assert (agrees tcb [] (w_kernel w)) as Hstart.
  { unfold fresh, agrees in *.
    destruct (objects (w_kernel w) !! tcb) as [[t|]|]; auto. subst t. simpl. auto. }
  pose proof (tracks_main P tcb w [] Hstart) as Hagrees.
  rewrite app_nil_l in Hagrees. fold r in Hagrees.
  split; [exact Hagrees|].
  unfold agrees in Hagrees.
  destruct (objects (w_kernel (final r)) !! tcb) as [[t|]|].
  - destruct (t_state t), (t_loaded t); try contradiction.
    + destruct Hagrees as [-> _]. simpl. lia.
    + destruct Hagrees as [n ->].
      rewrite filter_cons_False by discriminate.
      rewrite no_resume_among_loads. simpl. lia.
    + destruct Hagrees as [-> _]. simpl. lia.
    + destruct Hagrees as [n ->].
      rewrite filter_cons_False by discriminate.
      rewrite filter_app, no_resume_among_loads. simpl. lia.
  - rewrite Hagrees. simpl. lia.
  - rewrite Hagrees. simpl. lia.
Qed.

(** ** The execution-context state machine *)

Lemma resume_run K sys tcb (w : world K) :
  resume K sys tcb w
  = {| result := if fst (sys (seL4_TCB_Resume tcb) (w_kernel w)) =? seL4_NoError
                 then Ret tt
                 else Abort (Failed_to_start_new_thread
                               (fst (sys (seL4_TCB_Resume tcb) (w_kernel w))));
       final := {| w_info := w_info w;
                   w_kernel := snd (sys (seL4_TCB_Resume tcb) (w_kernel w)) |};
       events := [Invoked (seL4_TCB_Resume tcb)
                          (fst (sys (seL4_TCB_Resume tcb) (w_kernel w)))] |}.
Proof. unfold resume. apply invoke_checked_run. Qed.

(** C5, on the kernel of the specification: whatever invocations the
    kernel has served since the execution context at [tcb] was fresh,
    [resume] aborts with [ResumeFailed], and leaves the kernel as it is,
    when no [configure] or no [load_registers] of the context has
    succeeded; it aborts with [AlreadyRunning] when a [resume] of it has
    succeeded; it succeeds when [configure] and [load_registers] have
    succeeded and no [resume] has; and at most one [resume] of the context
    has succeeded. *)
Theorem resume_state_machine info tcb calls k0 :
  fresh tcb k0 →
  let past := successes tcb (fst (serve calls k0)) in
  let w := Build_world info (snd (serve calls k0)) in
  let failed e :=
    {| result := Abort (Failed_to_start_new_thread (code e)); final := w;
       events := [Invoked (seL4_TCB_Resume tcb) (code e)] |} in
  (Configured ∉ past ∨ Loaded ∉ past →
   resume _ syscall tcb w = failed ResumeFailed) ∧
  (Resumed ∈ past → resume _ syscall tcb w = failed AlreadyRunning) ∧
  (Configured ∈ past → Loaded ∈ past → Resumed ∉ past →
   result (resume _ syscall tcb w) = Ret tt ∧
   successes tcb (events (resume _ syscall tcb w)) = [Resumed]) ∧
  (length (filter (λ s, s = Resumed) past) ≤ 1)%nat.
Proof.
  intros Hfresh past w failed.
  pose proof (agrees_serve tcb calls k0 Hfresh) as Hagrees.
  fold past in Hagrees. unfold failed. rewrite !resume_run.
  subst w. cbn [w_info w_kernel syscall].
  set (k := snd (serve calls k0)) in *. clearbody k past.
  unfold agrees in Hagrees. unfold start_thread.
  destruct (objects k !! tcb) as [[t|s]|] eqn:Hobj.
  - destruct (t_state t) eqn:Hst, (t_loaded t) eqn:Hl; try contradiction.
    + (* unconfigured *)
      destruct Hagrees as [-> _]. cbn [fst snd].
      split_and!; [reflexivity | intros []%elem_of_nil | intros []%elem_of_nil
                  | simpl; lia].
    + (* configured and loaded *)
      destruct Hagrees as [n ->]. cbn [fst snd].
      split_and!.
      * intros [Hno | Hno]; exfalso; apply Hno; simpl; set_solver.
      * intros Hin. exfalso. simpl in Hin.
        apply elem_of_cons in Hin as [? | Hin]; [discriminate|].
        apply elem_of_cons in Hin as [? | Hin]; [discriminate|].
        apply elem_of_replicate in Hin as [? _]. discriminate.
      * intros _ _ _. split; [reflexivity|].
        unfold successes. simpl. rewrite Z.eqb_refl. reflexivity.
      * rewrite filter_cons_False by discriminate.
        rewrite no_resume_among_loads. simpl. lia.
    + (* configured, registers never loaded *)
      destruct Hagrees as [-> _]. cbn [fst snd].
      split_and!.
      * reflexivity.
      * intros Hin. apply list_elem_of_singleton in Hin. discriminate.
      * intros _ Hin. apply list_elem_of_singleton in Hin. discriminate.
      * simpl. lia.
    + (* runnable *)
      destruct Hagrees as [n ->]. cbn [fst snd].
      split_and!.
      * intros [Hno | Hno]; exfalso; apply Hno; simpl; set_solver.
      * reflexivity.
      * intros _ _ Hno. exfalso. apply Hno. set_solver.
      * rewrite filter_cons_False by discriminate.
        rewrite filter_app, no_resume_among_loads. simpl. lia.
  - subst past. cbn [fst snd].
    split_and!; [reflexivity | intros []%elem_of_nil | intros []%elem_of_nil
                | simpl; lia].
  - subst past. cbn [fst snd].
    split_and!; [reflexivity | intros []%elem_of_nil | intros []%elem_of_nil
                | simpl; lia].
Qed.

Lemma resume_state_machine_witness :
  resume _ syscall 100 sample_world
  = {| result := Abort (Failed_to_start_new_thread (code ResumeFailed));
       final := sample_world;
       events := [Invoked (seL4_TCB_Resume 100) (code ResumeFailed)] |}.
Proof.
  apply (resume_state_machine sample_info 100 [] (boot sample_platform sample_info)).
  - exact I.
  - left. intros []%elem_of_nil.
Defined.

(** ** Binding a scheduling policy *)

Lemma configure_sc_run P K sys (w : world K) sc budget period extra :
  let control :=
    wrap (word_bits P) (start (schedcontrol (w_info w)) + nodeID (w_info w)) in
  let i := seL4_SchedControl_Configure control sc budget period extra in
  configure_sc P K sys sc budget period extra w
  = if control =? seL4_CapNull P then
      {| result := Abort Failed_to_find_sched_control; final := w; events := [] |}
    else
      {| result := if fst (sys i (w_kernel w)) =? seL4_NoError then Ret tt
                   else Abort (Failed_to_configure_scheduling_context
                                 (fst (sys i (w_kernel w))));
         final := {| w_info := w_info w; w_kernel := snd (sys i (w_kernel w)) |};
         events := [Invoked i (fst (sys i (w_kernel w)))] |}.
Proof.
  intros control i. unfold configure_sc, W. rewrite bind_run.
  cbn [read_info result final events]. fold control. rewrite bind_run.
  cbn [ZF_LOGF_IF result final events].
  destruct (control =? seL4_CapNull P); [reflexivity|].
  rewrite invoke_checked_run. reflexivity.
Qed.

(** C6, on the kernel of the specification: with a scheduling control for
    the node, the policy-binding step of [main] aborts with [InvalidPolicy],
    and leaves the kernel as it is, whenever the period or the budget is not
    positive or the budget is above the period; a policy whose budget equals
    its positive period, as the 10 ms / 10 ms of [main], is accepted for a
    scheduling context that has no policy yet. *)
Theorem configure_sc_validates_policy P (w : world kernel) sc budget period extra :
  let control :=
    wrap (word_bits P) (start (schedcontrol (w_info w)) + nodeID (w_info w)) in
  let i := seL4_SchedControl_Configure control sc budget period extra in
  control ≠ seL4_CapNull P → control ∈ controls (w_kernel w) →
  (period ≤ 0 ∨ budget ≤ 0 ∨ period < budget →
   configure_sc P _ syscall sc budget period extra w
   = {| result := Abort (Failed_to_configure_scheduling_context (code InvalidPolicy));
        final := w; events := [Invoked i (code InvalidPolicy)] |}) ∧
  (0 < budget → budget = period →
   ∀ s, objects (w_kernel w) !! sc = Some (SchedContextObject s) →
        sc_policy s = None →
        result (configure_sc P _ syscall sc budget period extra w) = Ret tt ∧
        events (configure_sc P _ syscall sc budget period extra w)
        = [Invoked i seL4_NoError] ∧
        objects (w_kernel (final (configure_sc P _ syscall sc budget period extra w)))
          !! sc
        = Some (SchedContextObject
                  {| sc_policy := Some {| p_budget := budget; p_period := period;
                                          p_extra_refills := extra;
                                          p_control := control |};
                     sc_thread := sc_thread s |})).
Proof.
  intros control i Hnull Hcontrol.
  rewrite !configure_sc_run. fold control i.
  destruct (Z.eqb_spec control (seL4_CapNull P)) as [|_]; [contradiction|].
  cbn [syscall i]. unfold bind_policy.
  rewrite decide_True by exact Hcontrol.
  split.
  - intros Hinvalid.
    assert (valid_policy budget period = false) as ->.
    { unfold valid_policy.
      destruct (Z.ltb_spec 0 period), (Z.ltb_spec 0 budget),
        (Z.leb_spec budget period); simpl; auto; lia. }
    destruct w. reflexivity.
  - intros Hpos <- s Hsc Hfree.
    assert (valid_policy budget budget = true) as ->.
    { unfold valid_policy.
      destruct (Z.ltb_spec 0 budget), (Z.leb_spec budget budget); simpl; auto; lia. }
    rewrite Hsc, Hfree. cbn [fst snd result events final w_kernel].
    split_and!; try reflexivity.
    simpl. rewrite lookup_insert_eq. reflexivity.
Qed.

Lemma configure_sc_validates_policy_witness :
  configure_sc sample_platform _ syscall 101 20000 10000 0 sample_world
  = {| result := Abort (Failed_to_configure_scheduling_context (code InvalidPolicy));
       final := sample_world;
       events := [Invoked (seL4_SchedControl_Configure 40 101 20000 10000 0)
                          (code InvalidPolicy)] |}.
Proof.
  apply (configure_sc_validates_policy sample_platform sample_world 101 20000 10000 0).
  - vm_compute. discriminate.
  - vm_compute. set_solver.
  - right. right. lia.
Defined.

(** ** Loading the registers *)

(** C8, on the kernel of the specification: on a configured execution
    context [write_registers] writes two registers, the instruction pointer
    into the first and the stack pointer into the second, and leaves every
    other register, and every other object, as it is; on a context that
    was fresh and whose registers were never loaded, the other registers
    are at the zero of its creation. *)
Theorem write_registers_two_registers P info tcb entry sp calls k0 t :
  wf_platform P → 0 ≤ sp < 2 ^ word_bits P → sp mod (2 * sizeof_Word P) = 0 →
  fresh tcb k0 →
  let k := snd (serve calls k0) in
  objects k !! tcb = Some (ThreadObject t) → t_state t = configured →
  let r := write_registers P _ syscall tcb entry sp (Build_world info k) in
  result r = Ret tt ∧
  (∃ regs, events r = [Invoked (seL4_TCB_WriteRegisters tcb 0 0 2 regs) seL4_NoError]) ∧
  (∀ slot, slot ≠ tcb →
           objects (w_kernel (final r)) !! slot = objects k !! slot) ∧
  ∃ t', objects (w_kernel (final r)) !! tcb = Some (ThreadObject t') ∧
        t_state t' = configured ∧
        t_registers t' = [wrap (word_bits P) entry; sp] ++ drop 2 (t_registers t) ∧
        (t_loaded t = false →
         t_registers t' = [wrap (word_bits P) entry; sp] ++ replicate 11 0).
Proof.
  intros HP Hsp Haligned Hfresh k Hobj Hst r.
  pose proof (agrees_serve tcb calls k0 Hfresh) as Hagrees.
  fold k in Hagrees. unfold agrees in Hagrees. rewrite Hobj, Hst in Hagrees.
  unfold r. rewrite (write_registers_run P _ syscall _ tcb entry sp HP Hsp).
  rewrite Haligned. cbn [Z.eqb syscall w_kernel w_info].
  unfold load. rewrite Hobj, Hst. cbn [fst snd result events final w_kernel].
  split_and!; [reflexivity | eexists; reflexivity | |].
  - intros slot Hne. simpl. rewrite lookup_insert_ne by auto. reflexivity.
  - eexists. simpl. rewrite lookup_insert_eq. split_and!; try reflexivity.
    intros Hl. rewrite Hl in Hagrees. destruct Hagrees as [_ ->]. reflexivity.
Qed.

Lemma write_registers_two_registers_witness :
  let calls := [seL4_Untyped_Retype 50 seL4_TCBObject 12 2 2 32 100 1;
                seL4_Untyped_Retype 51 seL4_SchedContextObject 16 2 2 32 101 1;
                seL4_TCB_Configure 100 0 (255, 255) 101 2 0 3 0 0 0] in
  let k := snd (serve calls (boot sample_platform sample_info)) in
  result (write_registers sample_platform _ syscall 100 4198400 6295552
            (Build_world sample_info k)) = Ret tt.
Proof.
  intros calls k.
  assert (∃ t, objects k !! 100 = Some (ThreadObject t) ∧ t_state t = configured)
    as (t & Ht & Hst) by (eexists; split; vm_compute; reflexivity).
  apply (write_registers_two_registers sample_platform sample_info 100 4198400
           6295552 calls (boot sample_platform sample_info) t sample_platform_wf).
  - simpl. lia.
  - reflexivity.
  - exact I.
  - exact Ht.
  - exact Hst.
Defined.

(** ** The end-to-end scenario *)

(** C4: with grants of 4096 and 65536 bytes at the capabilities 50 and 51
    and the free slots [100,110), on the kernel of the specification, [main]
    retypes grant 0 into the thread object at slot 100 and grant 1 into the
    scheduling context at slot 101, both grants are retired, the policy of
    10 ms budget and 10 ms period is bound through the control of node 0,
    the thread is configured, its registers are loaded with a stack pointer
    that is a multiple of 16, and it is resumed; every invocation returns
    no error and [main] returns 0. *)
Theorem bootstrap_scenario :
  let r := main sample_platform _ syscall sample_world in
  result r = Ret 0 ∧
  events r
  = [Called (seL4_SetUserData 8192);
     Called (zf_log_set_tag_prefix "hello-2:");
     Called (name_thread 1 "hello-2");
     Called debug_print_bootinfo;
     Invoked (seL4_Untyped_Retype 50 seL4_TCBObject 12 2 2 32 100 1) seL4_NoError;
     Invoked (seL4_Untyped_Retype 51 seL4_SchedContextObject 16 2 2 32 101 1)
             seL4_NoError;
     Invoked (seL4_SchedControl_Configure 40 101 10000 10000 0) seL4_NoError;
     Invoked (seL4_TCB_Configure 100 0 (255, 255) 101 2 0 3 0 0 0) seL4_NoError;
     Called (name_thread 100 "hello-2: thread_2");
     Invoked (seL4_TCB_WriteRegisters 100 0 0 2
                {| eip := 4198400; esp := 6295552; eflags := 0; eax := 0;
                   ebx := 0; ecx := 0; edx := 0; esi := 0; edi := 0; ebp := 0;
                   tls_base := 0; fs := 0; gs := 0 |}) seL4_NoError;
     Invoked (seL4_TCB_Resume 100) seL4_NoError;
     Called (printf (String.append "main: hello world" newline))] ∧
  6295552 mod 16 = 0 ∧
  grants (w_kernel (final r)) = ∅ ∧
  objects (w_kernel (final r)) !! 100
  = Some (ThreadObject
            {| t_state := runnable; t_loaded := true;
               t_registers := [4198400; 6295552; 0; 0; 0; 0; 0; 0; 0; 0; 0; 0; 0];
               t_sched_context := Some 101;
               t_cspace_root := 2; t_vspace_root := 3 |}) ∧
  objects (w_kernel (final r)) !! 101
  = Some (SchedContextObject
            {| sc_policy := Some {| p_budget := 10000; p_period := 10000;
                                    p_extra_refills := 0; p_control := 40 |};
               sc_thread := Some 100 |}).
Proof. vm_compute. split_and!; reflexivity. Qed.

(** * The runs of [main] against any kernel *)

Section Hoare.
Variable P : platform.
Variable K : Type.
Variable syscall : invocation -> K -> Z * K.
Variable info : seL4_BootInfo.
Variable Φ : event → Prop.
Variable E : fatal → Prop.
Variable U : Prop.
Variable answers : Z → Prop.
Hypothesis kernel_answers : ∀ i k, answers (fst (syscall i k)).
Implicit Types w : world K.

Lemma hoare_bind {A B} (m : M K A) (f : A → M K B) Q R :
  hoare info Φ E U m Q →
  (∀ a, Q a → hoare info Φ E U (f a) R) →
  hoare info Φ E U (m ≫= f) R.
Proof.
  intros Hm Hf w Hw. rewrite bind_run.
  destruct (Hm w Hw) as (Hinfo & Hev & Hres).
  destruct (result (m w)) as [a| e |]; cbn [result final events]; auto.
  destruct (Hf a Hres (final (m w)) Hinfo) as (Hinfo' & Hev' & Hres').
  split_and!; auto. apply Forall_app. auto.
Qed.

Lemma hoare_ret {A} (a : A) : hoare info Φ E U (mret a : M K A) (λ b, b = a).
Proof. intros w Hw. simpl. auto. Qed.

Lemma hoare_read_info : hoare info Φ E U (read_info K) (λ i, i = info).
Proof. intros w Hw. simpl. auto. Qed.

Lemma hoare_call c : Φ (Called c) → hoare info Φ E U (call K c) (λ _, True).
Proof. intros Hc w Hw. simpl. auto. Qed.

Lemma hoare_defined {A} (o : option A) :
  (o = None → U) → hoare info Φ E U (defined K o) (λ a, o = Some a).
Proof. intros Ho w Hw. simpl. destruct o; auto. Qed.

Lemma hoare_invoke i :
  (∀ e, Φ (Invoked i e)) →
  hoare info Φ E U (invoke K syscall i) answers.
Proof.
  intros Hi w Hw. rewrite invoke_run. simpl. split_and!; auto.
Qed.

Lemma hoare_ZF_LOGF_IF cond f :
  (cond = true → E f) →
  hoare info Φ E U (ZF_LOGF_IF K cond f) (λ _, cond = false).
Proof. intros Hf w Hw. simpl. destruct cond; auto. Qed.

Lemma hoare_ZF_LOGF_IFERR error f :
  (error ≠ seL4_NoError → E (f error)) →
  hoare info Φ E U (ZF_LOGF_IFERR K error f) (λ _, error = seL4_NoError).
Proof.
  intros Hf w Hw. rewrite ZF_LOGF_IFERR_run. simpl.
  destruct (Z.eqb_spec error seL4_NoError); auto.
Qed.

Lemma hoare_get_untyped size :
  (get_untyped_scan P info size = None → U) →
  hoare info Φ E U (get_untyped P K size)
        (λ c, get_untyped_scan P info size = Some c).
Proof.
  intros Hu w Hw. rewrite get_untyped_run. simpl. subst info.
  destruct (get_untyped_scan _ _ _); auto.
Qed.

(** An invocation of [main] followed by its [ZF_LOGF_IFERR]. *)
Lemma hoare_checked i :
  (∀ e, Φ (Invoked i e)) →
  (∀ e, answers e → e ≠ seL4_NoError → E (site i e)) →
  hoare info Φ E U
        (invoke K syscall i ≫= λ error, ZF_LOGF_IFERR K error (site i))
        (λ _, True).
Proof.
  intros Hi He. eapply hoare_bind; [apply hoare_invoke; exact Hi|].
  intros e Hans w Hw.
  destruct (hoare_ZF_LOGF_IFERR e (site i) (He e Hans) w Hw) as (? & ? & Hres).
  split_and!; auto. destruct (result _); auto.
Qed.

End Hoare.

Section MainSpec.
Variable P : platform.
Variable K : Type.
Variable syscall : invocation -> K -> Z * K.
Variable info : seL4_BootInfo.
Variable E : fatal → Prop.
Variable U : Prop.
Variable answers : Z → Prop.
Hypothesis kernel_answers : ∀ i k, answers (fst (syscall i k)).
Hypothesis undefined_tcb_size : BIT P (seL4_TCBBits P) = None → U.
Hypothesis undefined_sc_size : shl_1u (seL4_MinSchedContextBits P) = None → U.
Hypothesis undefined_scan : ∀ size, get_untyped_scan P info size = None → U.
Hypothesis abort_null :
  wrap (word_bits P) (start (schedcontrol info) + nodeID info) = seL4_CapNull P →
  E Failed_to_find_sched_control.
Hypothesis abort_stack :
  wrap (word_bits P) (thread_2_stack P + sizeof_thread_2_stack)
    mod wrap (word_bits P) (to_int (sizeof_Word P * 2)) ≠ 0 →
  E (Stack_top_isnt_aligned_correctly (to_int (sizeof_Word P * 2))).
Hypothesis abort_error : ∀ i e, answers e → e ≠ seL4_NoError → E (site i e).

Lemma hoare_create_tcb :
  hoare info (expected P info) E U
       (create_tcb P K syscall (seL4_CapInitThreadCNode P) (start (empty info)))
       (λ _, True).
Proof.
  unfold create_tcb.
  eapply hoare_bind; [apply hoare_defined; exact undefined_tcb_size|].
  intros size Hsize.
  eapply hoare_bind; [apply hoare_get_untyped; apply undefined_scan|].
  intros untyped Huntyped.
  apply (hoare_checked K syscall info _ E U answers kernel_answers
           (seL4_Untyped_Retype untyped seL4_TCBObject (seL4_TCBBits P)
              (seL4_CapInitThreadCNode P) (seL4_CapInitThreadCNode P) 32
              (start (empty info)) 1)).
  - intros e. simpl. split_and!; try reflexivity. exists size. auto.
  - intros e. apply abort_error.
Qed.

Lemma hoare_create_sc :
  hoare info (expected P info) E U
       (create_sc P K syscall (seL4_CapInitThreadCNode P)
          (wrap (word_bits P) (start (empty info) + 1)))
       (λ _, True).
Proof.
  unfold create_sc.
  eapply hoare_bind; [apply hoare_defined; exact undefined_sc_size|].
  intros size Hsize.
  eapply hoare_bind; [apply hoare_get_untyped; apply undefined_scan|].
  intros untyped Huntyped.
  apply (hoare_checked K syscall info _ E U answers kernel_answers
           (seL4_Untyped_Retype untyped seL4_SchedContextObject
              (seL4_MinSchedContextBits P)
              (seL4_CapInitThreadCNode P) (seL4_CapInitThreadCNode P) 32
              (wrap (word_bits P) (start (empty info) + 1)) 1)).
  - intros e. simpl. split_and!; try reflexivity. exists size. auto.
  - intros e. apply abort_error.
Qed.

Lemma hoare_configure_sc :
  hoare info (expected P info) E U
       (configure_sc P K syscall (wrap (word_bits P) (start (empty info) + 1))
          (wrap 64 (10 * US_IN_MS P)) (wrap 64 (10 * US_IN_MS P)) 0)
       (λ _, True).
Proof.
  unfold configure_sc, W.
  eapply hoare_bind; [apply hoare_read_info|]. intros ? ->. cbv zeta.
  eapply hoare_bind.
  { apply hoare_ZF_LOGF_IF. intros Hnull%Z.eqb_eq. exact (abort_null Hnull). }
  intros _ Hnull%Z.eqb_neq.
  apply (hoare_checked K syscall info _ E U answers kernel_answers
           (seL4_SchedControl_Configure
              (wrap (word_bits P) (start (schedcontrol info) + nodeID info))
              (wrap (word_bits P) (start (empty info) + 1))
              (wrap 64 (10 * US_IN_MS P)) (wrap 64 (10 * US_IN_MS P)) 0)).
  - intros e. simpl. split_and!; auto.
  - intros e. apply abort_error.
Qed.

Lemma hoare_configure_tcb :
  hoare info (expected P info) E U
       (configure_tcb P K syscall (start (empty info))
          (wrap (word_bits P) (start (empty info) + 1))
          (seL4_CapInitThreadCNode P) (seL4_CapInitThreadPD P))
       (λ _, True).
Proof.
  unfold configure_tcb.
  eapply hoare_bind.
  { apply (hoare_invoke K syscall info _ E U answers kernel_answers).
    intros e. simpl. split_and!; reflexivity. }
  intros e Hans.
  eapply hoare_bind.
  { apply hoare_ZF_LOGF_IFERR. intros He.
    exact (abort_error
             (seL4_TCB_Configure (start (empty info)) (seL4_CapNull P)
                (seL4_MaxPrio P, seL4_MaxPrio P)
                (wrap (word_bits P) (start (empty info) + 1))
                (seL4_CapInitThreadCNode P) (seL4_NilData P)
                (seL4_CapInitThreadPD P) (seL4_NilData P) 0 0) e Hans He). }
  intros _ _. apply hoare_call. exact I.
Qed.

Lemma hoare_write_registers :
  hoare info (expected P info) E U
       (write_registers P K syscall (start (empty info)) (thread_2 P)
          (wrap (word_bits P) (thread_2_stack P + sizeof_thread_2_stack)))
       (λ _, True).
Proof.
  unfold write_registers, W. cbv zeta.
  eapply hoare_bind.
  { apply hoare_ZF_LOGF_IF. intros Hmis%negb_true_iff%Z.eqb_neq.
    exact (abort_stack Hmis). }
  intros _ Hal%negb_false_iff%Z.eqb_eq.
  match goal with
  | |- hoare _ _ _ _ (invoke _ _ ?i ≫= _) _ =>
      apply (hoare_checked K syscall info _ E U answers kernel_answers i)
  end.
  - intros e. simpl. split_and!; auto.
  - intros e. apply abort_error.
Qed.

Lemma hoare_resume :
  hoare info (expected P info) E U
       (resume K syscall (start (empty info))) (λ _, True).
Proof.
  unfold resume.
  apply (hoare_checked K syscall info _ E U answers kernel_answers
           (seL4_TCB_Resume (start (empty info)))).
  - intros e. reflexivity.
  - intros e. apply abort_error.
Qed.

Lemma hoare_main :
  hoare info (expected P info) E U (main P K syscall) (λ r, r = 0).
Proof.
  unfold main, W.
  eapply hoare_bind; [apply hoare_read_info|]. intros ? ->.
  do 4 (eapply hoare_bind; [apply hoare_call; exact I|]; intros _ _).
  cbv zeta.
  eapply hoare_bind; [apply hoare_create_tcb|]; intros _ _.
  eapply hoare_bind; [apply hoare_create_sc|]; intros _ _.
  eapply hoare_bind; [apply hoare_configure_sc|]; intros _ _.
  eapply hoare_bind; [apply hoare_configure_tcb|]; intros _ _.
  eapply hoare_bind; [apply hoare_write_registers|]; intros _ _.
  eapply hoare_bind; [apply hoare_resume|]; intros _ _.
  eapply hoare_bind; [apply hoare_call; exact I|]; intros _ _.
  apply hoare_ret.
Qed.

End MainSpec.

Section FailStop.
Variable P : platform.
Variable K : Type.
Variable syscall : invocation -> K -> Z * K.
Implicit Types w : world K.

Lemma stops_bind {A B} (m : M K A) (f : A → M K B) :
  stops m → (∀ a, stops (f a)) → stops (m ≫= f).
Proof.
  intros Hm Hf w. specialize (Hm w). unfold fail_stop in *.
  rewrite bind_run.
  destruct (result (m w)) as [a| e |]; cbn [result events]; auto.
  specialize (Hf a (final (m w))). unfold fail_stop in Hf.
  destruct (result (f a (final (m w)))) as [b| e |].
  - apply Forall_app; auto.
  - destruct Hf as [[Hown Hclean] | (evs & i & e' & Hev & Hclean & He & Hf)].
    + left. split; [exact Hown|]. apply Forall_app; auto.
    + right. exists (events (m w) ++ evs), i, e'.
      rewrite Hev, app_assoc. split_and!; auto. apply Forall_app; auto.
  - apply Forall_app; auto.
Qed.

Lemma stops_silent {A} (m : M K A) :
  (∀ w, events (m w) = [] ∧
        ∀ f, result (m w) = Abort f → own_check f = true) →
  stops m.
Proof.
  intros Hm w. destruct (Hm w) as [Hev Hf]. unfold fail_stop. rewrite Hev.
  destruct (result (m w)); auto.
Qed.

Lemma stops_call c : stops (call K c).
Proof. intros w. unfold fail_stop. simpl. repeat constructor. Qed.

Lemma stops_checked i :
  stops (invoke K syscall i ≫= λ error, ZF_LOGF_IFERR K error (site i)).
Proof.
  intros w. unfold fail_stop. rewrite invoke_checked_run. cbn [result events].
  destruct (Z.eqb_spec (fst (syscall i (w_kernel w))) seL4_NoError) as [He | He].
  - repeat constructor. exact He.
  - right. exists [], i, (fst (syscall i (w_kernel w))). auto.
Qed.

Lemma bind_assoc_run {A B C} (m : M K A) (f : A → M K B) (g : B → M K C) w :
  (m ≫= λ a, f a ≫= g) w = ((m ≫= f) ≫= g) w.
Proof.
  rewrite !(bind_run K m), (bind_run K (m ≫= f)), (bind_run K m).
  destruct (result (m w)) as [a| e |]; cbn [result final events]; try reflexivity.
  rewrite bind_run.
  destruct (result (f a (final (m w)))) as [b| e |]; cbn [result final events];
    rewrite ?app_assoc; reflexivity.
Qed.

Lemma stops_checked_then {B} i (k : unit → M K B) :
  (∀ a, stops (k a)) →
  stops (invoke K syscall i ≫= λ error, ZF_LOGF_IFERR K error (site i) ≫= k).
Proof.
  intros Hk w. rewrite bind_assoc_run.
  apply (stops_bind _ k (stops_checked i) Hk w).
Qed.

Ltac stops_atom :=
  first [ apply stops_call
        | apply stops_silent; intros; split; [reflexivity|];
          simpl; intros ? ?; simplify_eq; reflexivity ].

Lemma stops_get_untyped size : stops (get_untyped P K size).
Proof.
  apply stops_silent. intros w. rewrite get_untyped_run. simpl.
  split; [reflexivity|]. destruct (get_untyped_scan _ _ _); discriminate.
Qed.

Lemma stops_defined {A} (o : option A) : stops (defined K o).
Proof.
  apply stops_silent. intros w. simpl. split; [reflexivity|].
  destruct o; discriminate.
Qed.

Lemma stops_ZF_LOGF_IF cond f : own_check f = true → stops (ZF_LOGF_IF K cond f).
Proof.
  intros Hf. apply stops_silent. intros w. simpl. split; [reflexivity|].
  destruct cond; [intros ? [= <-]; exact Hf | discriminate].
Qed.

Lemma stops_main : stops (main P K syscall).
Proof.
  unfold main, create_tcb, create_sc, configure_sc, configure_tcb,
    write_registers, resume. cbv zeta.
  repeat first
    [ apply stops_call
    | apply stops_get_untyped
    | apply stops_defined
    | apply stops_ZF_LOGF_IF; reflexivity
    | apply stops_checked
    | apply stops_checked_then; intros ?
    | apply stops_silent; intros; split; [reflexivity | discriminate]
    | apply stops_bind; [|intros ?] ].
Qed.

End FailStop.

(** ** More on the grant search *)

Section Unsigned.
Variable P : platform.
Hypothesis HP : wf_platform P.

(** The loop of [get_untyped] for any [size_bytes]: the first fit for the
    size as the comparison reads it, converted to [unsigned long]. *)
Lemma get_untyped_loop_unsigned end_cap size rest i :
  0 ≤ i ≤ end_cap → end_cap ≤ INT_MAX →
  end_cap - i ≤ Z.of_nat (length rest) →
  Forall (λ d, 0 ≤ sizeBits d < word_bits P) (take (Z.to_nat (end_cap - i)) rest) →
  get_untyped_loop P end_cap size rest i
  = Some (first_fit P (wrap (word_bits P) size) i (take (Z.to_nat (end_cap - i)) rest)).
Proof.
  revert i.
  induction rest as [|d rest IH]; intros i Hi Hend Hlen Hbits.
  - simpl in Hlen. assert (i = end_cap) as -> by lia.
    cbn [get_untyped_loop].
    rewrite (wrap_small P HP end_cap) by (unfold INT_MAX in *; lia).
    rewrite Z.ltb_irrefl, take_nil. reflexivity.
  - cbn [get_untyped_loop].
    rewrite (wrap_small P HP i) by (unfold INT_MAX in *; lia).
    destruct (Z.ltb_spec i end_cap) as [Hlt | Hge].
    + assert (Z.to_nat (end_cap - i) = S (Z.to_nat (end_cap - (i + 1)))) as Hn by lia.
      rewrite Hn in *. cbn [take] in *.
      apply Forall_cons in Hbits as [Hd Hbits].
      rewrite (BIT_defined P) by assumption.
      unfold first_fit. cbn [list_find].
      destruct (Z.geb_spec (2 ^ sizeBits d) (wrap (word_bits P) size)) as [Hfit | Hsmall].
      * rewrite decide_True by lia. simpl. f_equal. lia.
      * rewrite decide_False by lia.
        destruct (Z.eqb_spec i INT_MAX) as [-> | _]; [lia|].
        rewrite IH; [|lia|lia|simpl in Hlen; lia|assumption].
        unfold first_fit. f_equal.
        destruct (list_find _ _) as [[k x]|]; simpl; [lia|reflexivity].
    + assert (i = end_cap) as -> by lia.
      rewrite Z.sub_diag. reflexivity.
Qed.

Lemma get_untyped_scan_unsigned info size :
  wf_untyped P info →
  get_untyped_scan P info size
  = Some (first_fit P (wrap (word_bits P) size) (start (untyped info)) (grant_list info)).
Proof.
  intros (Hse & Hend & Hlen & Hbits). unfold get_untyped_scan.
  rewrite to_int_small by lia.
  apply get_untyped_loop_unsigned; auto.
Qed.
End Unsigned.

Lemma get_untyped_scan_bounds P info size :
  wf_platform P → wf_untyped P info →
  ∃ c, get_untyped_scan P info size = Some c ∧
       (c = no_untyped P ∨
        start (untyped info) ≤ c < end_ (untyped info) ∧
        ∃ d, untypedList info !! Z.to_nat (c - start (untyped info)) = Some d ∧
             wrap (word_bits P) size ≤ 2 ^ sizeBits d ∧
             (0 ≤ size ≤ INT_MAX → size ≤ 2 ^ sizeBits d)).
Proof.
  intros HP Hwf. rewrite (get_untyped_scan_unsigned P HP) by exact Hwf.
  eexists; split; [reflexivity|].
  destruct (decide (first_fit P (wrap (word_bits P) size) (start (untyped info))
                      (grant_list info) = no_untyped P)) as [? | Hne]; [left; assumption|].
  right. destruct (first_fit_inv P _ _ _ _ eq_refl Hne) as (k & d & Hc & Hk & Hd & _).
  rewrite Hc.
  pose proof (lookup_lt_Some _ _ _ Hk) as Hlt.
  unfold grant_list in Hk, Hlt. rewrite length_take in Hlt.
  apply lookup_take_Some in Hk as [Hk _].
  destruct Hwf as (Hse & Hend & Hlen & _).
  split; [lia|].
  exists d. replace (Z.to_nat _) with k by lia.
  split_and!; auto.
  intros Hsize. rewrite (wrap_small P HP) in Hd by (unfold INT_MAX in *; lia). exact Hd.
Qed.

(** X2: a negative [size_bytes] fits no untyped: the comparison of
    [get_untyped] converts it to [unsigned long], where it is larger than
    every [BIT(sizeBits)] of a well-formed boot info, so the loop runs to
    the end and the failure value [(seL4_CPtr)-1] is returned. *)
Theorem get_untyped_negative_size_fails P info size :
  wf_platform P → wf_untyped P info →
  INT_MIN < size < 0 →
  get_untyped_scan P info size = Some (no_untyped P).
Proof.
  intros HP Hwf Hsize. rewrite (get_untyped_scan_unsigned P HP) by exact Hwf.
  f_equal. apply first_fit_none.
  destruct Hwf as (_ & _ & _ & Hbits).
  eapply Forall_impl; [exact Hbits|]. simpl. intros d Hd.
  unfold wrap, INT_MIN in *.
  assert (2 ^ sizeBits d ≤ 2 ^ (word_bits P - 1)) by (apply Z.pow_le_mono_r; lia).
  destruct HP as [HW | HW]; rewrite HW in *.
  - replace (size mod 2 ^ 32) with (size + 2 ^ 32); [lia|].
    apply Z.mod_unique with (q := -1); lia.
  - replace (size mod 2 ^ 64) with (size + 2 ^ 64); [lia|].
    apply Z.mod_unique with (q := -1); lia.
Qed.

(** ** More on the runs of [main] *)

Lemma main_events_expected P K syscall (w : world K) :
  Forall (expected P (w_info w)) (events (main P K syscall w)).
Proof.
  destruct (hoare_main P K syscall (w_info w) (λ _, True) True (λ _, True))
    with (w := w) as (_ & Hev & _); auto.
Qed.

Lemma last_failure_unique (l1 l2 rest : list event) x y :
  l1 ++ x :: rest = l2 ++ [y] → ¬ succeeded x → Forall succeeded l2 →
  rest = [] ∧ x = y.
Proof.
  intros Heq Hx Hl2.
  destruct rest as [|z rest _] using rev_ind.
  - apply app_inj_tail in Heq as [_ ->]. auto.
  - exfalso. rewrite app_comm_cons, app_assoc in Heq.
    apply app_inj_tail in Heq as [<- _].
    apply Forall_app in Hl2 as [_ Hl2]. apply Forall_cons in Hl2 as [Hx' _].
    contradiction.
Qed.

(** X1: on a well-formed boot info [get_untyped] has no undefined
    behaviour for any [size_bytes], and what it returns is either the
    failure value [(seL4_CPtr)-1] or a capability inside the untyped region
    whose descriptor holds at least the requested size, as the comparison
    reads it (for a size that is not negative, the size itself). *)
Theorem get_untyped_in_region P info size :
  wf_platform P → wf_untyped P info →
  ∃ c, get_untyped_scan P info size = Some c ∧
       (c = no_untyped P ∨
        start (untyped info) ≤ c < end_ (untyped info) ∧
        ∃ d, untypedList info !! Z.to_nat (c - start (untyped info)) = Some d ∧
             wrap (word_bits P) size ≤ 2 ^ sizeBits d ∧
             (0 ≤ size ≤ INT_MAX → size ≤ 2 ^ sizeBits d)).
Proof. apply get_untyped_scan_bounds. Qed.

Lemma get_untyped_in_region_witness :
  ∃ c, get_untyped_scan sample_platform sample_info 5000 = Some c ∧
       (c = no_untyped sample_platform ∨
        start (untyped sample_info) ≤ c < end_ (untyped sample_info) ∧
        ∃ d, untypedList sample_info !! Z.to_nat (c - start (untyped sample_info))
             = Some d ∧
             wrap (word_bits sample_platform) 5000 ≤ 2 ^ sizeBits d ∧
             (0 ≤ 5000 ≤ INT_MAX → 5000 ≤ 2 ^ sizeBits d)).
Proof.
  apply (get_untyped_in_region sample_platform sample_info 5000).
  - exact sample_platform_wf.
  - exact sample_info_wf.
Defined.

Lemma get_untyped_negative_size_fails_witness :
  get_untyped_scan sample_platform sample_info (-4096)
  = Some (no_untyped sample_platform).
Proof.
  apply (get_untyped_negative_size_fails sample_platform sample_info (-4096)).
  - exact sample_platform_wf.
  - exact sample_info_wf.
  - unfold INT_MIN. lia.
Defined.

(** X3: [main] stops at the first error, against any kernel: an
    invocation that returns an error is the last event of the run, and
    when [main] returns every invocation it made has returned
    [seL4_NoError]. *)
Theorem main_stops_at_first_error P K syscall (w : world K) :
  let r := main P K syscall w in
  (∀ v, result r = Ret v → Forall succeeded (events r)) ∧
  (∀ evs i e rest, events r = evs ++ Invoked i e :: rest →
                   e ≠ seL4_NoError → rest = []).
Proof.
  intros r. pose proof (stops_main P K syscall w) as Hstop.
  fold r in Hstop. unfold fail_stop in Hstop. split.
  - intros v Hv. rewrite Hv in Hstop. exact Hstop.
  - intros evs i e rest Hev He.
    assert (¬ Forall succeeded (events r)) as Hdirty.
    { rewrite Hev. intros [_ Hbad%Forall_cons]%Forall_app.
      destruct Hbad as [Hbad _]. contradiction. }
    destruct (result r) as [v| f |]; try contradiction.
    destruct Hstop as [[_ Hclean] | (evs' & i' & e' & Hev' & Hclean & _)];
      [contradiction|].
    rewrite Hev in Hev'.
    apply last_failure_unique in Hev' as [-> _]; auto.
Qed.

(** X4: when [main] aborts, against any kernel, either one of its own two
    checks has failed (no scheduling control, stack top not aligned) and
    every invocation before it succeeded, or the last event is an
    invocation that returned an error and the fatal is the one the source
    attaches to that invocation, carrying that error code; and [main]
    aborts so whenever its last event is an invocation that returned an
    error. *)
Theorem main_abort_reports_error P K syscall (w : world K) :
  let r := main P K syscall w in
  (∀ f, result r = Abort f →
        (own_check f = true ∧ Forall succeeded (events r)) ∨
        ∃ evs i e, events r = evs ++ [Invoked i e] ∧ Forall succeeded evs ∧
                   e ≠ seL4_NoError ∧ f = site i e) ∧
  (∀ evs i e, events r = evs ++ [Invoked i e] → e ≠ seL4_NoError →
              result r = Abort (site i e)).
Proof.
  intros r. pose proof (stops_main P K syscall w) as Hstop.
  fold r in Hstop. unfold fail_stop in Hstop. split.
  - intros f Hf. rewrite Hf in Hstop. exact Hstop.
  - intros evs i e Hev He.
    assert (¬ Forall succeeded (events r)) as Hdirty.
    { rewrite Hev. intros [_ Hbad%Forall_cons]%Forall_app.
      destruct Hbad as [Hbad _]. contradiction. }
    destruct (result r) as [v| f |]; try contradiction.
    destruct Hstop as [[_ Hclean] | (evs' & i' & e' & Hev' & Hclean & _ & ->)];
      [contradiction|].
    rewrite Hev in Hev'.
    apply last_failure_unique in Hev' as [_ [= <- <-]]; auto.
Qed.

(** X5: on a well-formed boot info, with the two size exponents inside the
    width of their shifts, [main] has no undefined behaviour, whatever the
    kernel answers. *)
Theorem main_defined P K syscall (w : world K) :
  wf_platform P → wf_untyped P (w_info w) →
  0 ≤ seL4_TCBBits P < word_bits P →
  0 ≤ seL4_MinSchedContextBits P < 32 →
  result (main P K syscall w) ≠ Undefined.
Proof.
  intros HP Hwf Htcb Hsc Hundef.
  destruct (hoare_main P K syscall (w_info w) (λ _, True) False (λ _, True))
    with (w := w) as (_ & _ & Hres); auto.
  - rewrite (BIT_defined P) by exact Htcb. discriminate.
  - unfold shl_1u.
    destruct (Z.leb_spec 0 (seL4_MinSchedContextBits P)),
      (Z.ltb_spec (seL4_MinSchedContextBits P) 32); simpl; try discriminate; lia.
  - intros size. rewrite (get_untyped_scan_unsigned P HP) by exact Hwf. discriminate.
  - rewrite Hundef in Hres. exact Hres.
Qed.

Lemma main_defined_witness :
  result (main sample_platform _ SpecKernel.syscall sample_world) ≠ Undefined.
Proof.
  apply main_defined.
  - exact sample_platform_wf.
  - exact sample_info_wf.
  - simpl. lia.
  - simpl. lia.
Defined.







(** X8: the scheduling control that [main] configures with, against any
    kernel, is never the null capability; it is the capability at offset
    [nodeID] of the scheduling-control region when the boot info has one
    for the node; and the budget it passes equals the period. *)
Theorem main_sched_control P K syscall (w : world K)
    service schedcontext budget period extra_refills e :
  wf_platform P →
  0 ≤ start (schedcontrol (w_info w)) →
  end_ (schedcontrol (w_info w)) ≤ 2 ^ 32 →
  0 ≤ nodeID (w_info w)
    < end_ (schedcontrol (w_info w)) - start (schedcontrol (w_info w)) →
  Invoked (seL4_SchedControl_Configure service schedcontext budget period
             extra_refills) e ∈ events (main P K syscall w) →
  service ≠ seL4_CapNull P ∧
  service = start (schedcontrol (w_info w)) + nodeID (w_info w) ∧
  start (schedcontrol (w_info w)) ≤ service < end_ (schedcontrol (w_info w)) ∧
  budget = period.
Proof.
  intros HP Hstart Hend Hnode Hin.
  pose proof (main_events_expected P K syscall w) as Hexp.
  rewrite Forall_forall in Hexp. specialize (Hexp _ Hin). simpl in Hexp.
  destruct Hexp as (Hservice & Hnull & _ & -> & -> & _).
  rewrite (wrap_small P HP) in Hservice by lia.
  split_and!; auto; lia.
Qed.

Lemma main_sched_control_witness :
  40 ≠ seL4_CapNull sample_platform ∧
  40 = start (schedcontrol sample_info) + nodeID sample_info ∧
  start (schedcontrol sample_info) ≤ 40 < end_ (schedcontrol sample_info) ∧
  10000 = 10000.
Proof.
  apply (main_sched_control sample_platform _ SpecKernel.syscall sample_world
           40 101 10000 10000 0 0).
  - exact sample_platform_wf.
  - simpl. lia.
  - simpl. lia.
  - simpl. lia.
  - apply list_elem_of_In. vm_compute. tauto.
Defined.

(** X9: in no run of [main], against any kernel, is the new thread loaded
    with a stack pointer that is not a multiple of twice the word size:
    every [seL4_TCB_WriteRegisters] that [main] invokes writes two
    registers, the address of [thread_2] and the top of [thread_2_stack],
    and that top is aligned. *)
Theorem main_loads_aligned_stack P K syscall (w : world K)
    service resume_target arch_flags count regs e :
  wf_platform P →
  Invoked (seL4_TCB_WriteRegisters service resume_target arch_flags count regs) e
    ∈ events (main P K syscall w) →
  count = 2 ∧
  eip regs = wrap (word_bits P) (thread_2 P) ∧
  esp regs = wrap (word_bits P) (thread_2_stack P + sizeof_thread_2_stack) ∧
  esp regs mod (2 * sizeof_Word P) = 0.
Proof.
  intros HP Hin.
  pose proof (main_events_expected P K syscall w) as Hexp.
  rewrite Forall_forall in Hexp. specialize (Hexp _ Hin). simpl in Hexp.
  destruct Hexp as (_ & _ & _ & -> & Haligned & ->). cbn [eip esp].
  destruct (alignment_requirement P HP) as [_ Hreq]. rewrite Hreq in Haligned.
  assert (∀ x, wrap (word_bits P) (wrap (word_bits P) x) = wrap (word_bits P) x)
    as Hidem.
  { intros x. unfold wrap. apply Z.mod_mod.
    pose proof (word_bits_bounds P HP).
    apply Z.pow_nonzero; lia. }
  rewrite Hidem. auto.
Qed.

Lemma main_loads_aligned_stack_witness :
  2 = 2 ∧
  4198400 = wrap (word_bits sample_platform) (thread_2 sample_platform) ∧
  6295552 = wrap (word_bits sample_platform)
              (thread_2_stack sample_platform + sizeof_thread_2_stack) ∧
  6295552 mod (2 * sizeof_Word sample_platform) = 0.
Proof.
  apply (main_loads_aligned_stack sample_platform _ SpecKernel.syscall sample_world
           100 0 0 2
           {| eip := 4198400; esp := 6295552;
              eflags := 0; eax := 0; ebx := 0; ecx := 0; edx := 0;
              esi := 0; edi := 0; ebp := 0; tls_base := 0; fs := 0; gs := 0 |} 0).
  - exact sample_platform_wf.
  - apply list_elem_of_In. vm_compute. tauto.
Defined.

(** X10: against a kernel that answers every invocation with
    [seL4_NoError], on a well-formed boot info with a scheduling control
    that is not null and an aligned [thread_2_stack], [main] returns 0
    after having made all six invocations. *)
Theorem main_completes P K syscall (w : world K) :
  (∀ i k, fst (syscall i k) = seL4_NoError) →
  wf_platform P → wf_untyped P (w_info w) →
  0 ≤ seL4_TCBBits P < word_bits P →
  0 ≤ seL4_MinSchedContextBits P < 32 →
  wrap (word_bits P) (start (schedcontrol (w_info w)) + nodeID (w_info w))
    ≠ seL4_CapNull P →
  thread_2_stack P mod 8 = 0 →
  (word_bits P = 64 → thread_2_stack P mod 16 = 0) →
  let tcb_cap := start (empty (w_info w)) in
  let sc_cap := wrap (word_bits P) (tcb_cap + 1) in
  result (main P K syscall w) = Ret 0 ∧
  landmarks (events (main P K syscall w))
  = [Retype_into tcb_cap; Retype_into sc_cap; Policy_onto sc_cap;
     Configure_of tcb_cap; Load_of tcb_cap; Resume_of tcb_cap].
Proof.
  intros Hok HP Hwf Htcb Hsc Hnull H8 H16 tcb_cap sc_cap.
  pose proof (stack_top_aligned P HP H8 H16) as Haligned.
  destruct (hoare_main P K syscall (w_info w) (λ _, False) False
              (λ e, e = seL4_NoError)) with (w := w) as (_ & _ & Hres); auto.
  - rewrite (BIT_defined P) by exact Htcb. discriminate.
  - unfold shl_1u.
    destruct (Z.leb_spec 0 (seL4_MinSchedContextBits P)),
      (Z.ltb_spec (seL4_MinSchedContextBits P) 32); simpl; try discriminate; lia.
  - intros size. rewrite (get_untyped_scan_unsigned P HP) by exact Hwf. discriminate.
  - destruct (result (main P K syscall w)) as [v| |] eqn:Hresult; try contradiction.
    subst v.
    destruct (main_invocation_order P K syscall w) as [_ Hret].
    destruct (Hret 0 Hresult) as [_ Hscript].
    split; [reflexivity | exact Hscript].
Qed.

Lemma main_completes_witness :
  let w := Build_world sample_info tt in
  result (main sample_platform unit accept_all w) = Ret 0 ∧
  landmarks (events (main sample_platform unit accept_all w))
  = [Retype_into 100; Retype_into (wrap 64 (100 + 1)); Policy_onto (wrap 64 (100 + 1));
     Configure_of 100; Load_of 100; Resume_of 100].
Proof.
  apply (main_completes sample_platform unit accept_all (Build_world sample_info tt)).
  - reflexivity.
  - exact sample_platform_wf.
  - exact sample_info_wf.
  - simpl. lia.
  - simpl. lia.
  - vm_compute. discriminate.
  - reflexivity.
  - reflexivity.
Defined.

Lemma prefix_contains_last {A} (l s : list A) x :
  l `prefix_of` s ++ [x] → x ∈ l → x ∉ s → l = s ++ [x].
Proof.
  intros [k Hk] Hin Hout.
  destruct k as [|y k _] using rev_ind.
  - rewrite app_nil_r in Hk. auto.
  - rewrite app_assoc in Hk. apply app_inj_tail in Hk as [-> _].
    exfalso. apply Hout. apply elem_of_app. auto.
Qed.

(** X11: [main] resumes the new thread only after everything before has
    succeeded: when a run of [main], against any kernel, contains
    [seL4_TCB_Resume], its target is the first free slot, all six
    invocations were made, and the only invocation of the run that may have
    returned an error is the resume itself. *)
Theorem main_resumes_after_success P K syscall (w : world K) tcb e :
  Invoked (seL4_TCB_Resume tcb) e ∈ events (main P K syscall w) →
  let tcb_cap := start (empty (w_info w)) in
  let sc_cap := wrap (word_bits P) (tcb_cap + 1) in
  tcb = tcb_cap ∧
  landmarks (events (main P K syscall w))
  = [Retype_into tcb_cap; Retype_into sc_cap; Policy_onto sc_cap;
     Configure_of tcb_cap; Load_of tcb_cap; Resume_of tcb_cap] ∧
  (∀ i e', Invoked i e' ∈ events (main P K syscall w) →
           e' ≠ seL4_NoError → i = seL4_TCB_Resume tcb).
Proof.
  intros Hin tcb_cap sc_cap.
  pose proof (main_events_expected P K syscall w) as Hexp.
  rewrite Forall_forall in Hexp.
  pose proof (Hexp _ Hin) as Htcb. simpl in Htcb. fold tcb_cap in Htcb. subst tcb.
  destruct (main_invocation_order P K syscall w) as [Hpre _].
  cbv zeta in Hpre. fold tcb_cap sc_cap in Hpre.
  assert (landmarks (events (main P K syscall w))
          = [Retype_into tcb_cap; Retype_into sc_cap; Policy_onto sc_cap;
             Configure_of tcb_cap; Load_of tcb_cap] ++ [Resume_of tcb_cap])
    as Hscript.
  { apply prefix_contains_last; [exact Hpre| |].
    - unfold landmarks. apply list_elem_of_omap.
      eexists. split; [exact Hin|reflexivity].
    - rewrite !elem_of_cons, elem_of_nil. intros Hbad.
      repeat destruct Hbad as [Hbad|Hbad]; try discriminate; contradiction. }
  split_and!; [reflexivity|exact Hscript|].
  intros i e' Hi He'.
  remember [Retype_into tcb_cap; Retype_into sc_cap; Policy_onto sc_cap;
            Configure_of tcb_cap; Load_of tcb_cap] as script eqn:Hs. clear Hs.
  pose proof (stops_main P K syscall w) as Hstop. unfold fail_stop in Hstop.
  assert (¬ Forall succeeded (events (main P K syscall w))) as Hdirty.
  { rewrite Forall_forall. intros Hall. apply He'. apply (Hall _ Hi). }
  destruct (result (main P K syscall w)); try contradiction.
  destruct Hstop as [[_ Hclean] | (evs & i' & e'' & Hev & Hclean & _)];
    [contradiction|].
  rewrite Hev in Hi, Hscript.
  apply elem_of_app in Hi as [Hi | Hi].
  - rewrite Forall_forall in Hclean. destruct He'. apply (Hclean _ Hi).
  - apply list_elem_of_singleton in Hi. injection Hi as -> ->.
    unfold landmarks in Hscript. rewrite omap_app in Hscript.
    destruct i'; csimpl in Hscript;
      apply app_inj_tail in Hscript as [_ Hlast]; try discriminate.
    injection Hlast as ->. reflexivity.
Qed.

Lemma main_resumes_after_success_witness :
  100 = start (empty sample_info) ∧
  landmarks (events (main sample_platform _ SpecKernel.syscall sample_world))
  = [Retype_into 100; Retype_into (wrap 64 (100 + 1)); Policy_onto (wrap 64 (100 + 1));
     Configure_of 100; Load_of 100; Resume_of 100] ∧
  (∀ i e', Invoked i e'
             ∈ events (main sample_platform _ SpecKernel.syscall sample_world) →
           e' ≠ seL4_NoError → i = seL4_TCB_Resume 100).
Proof.
  apply (main_resumes_after_success sample_platform _ SpecKernel.syscall
           sample_world 100 0).
  apply list_elem_of_In. vm_compute. tauto.
Defined.

(** X12: [get_untyped] is monotone in the size it is asked for: on a
    well-formed boot info, the capability it returns for a smaller size is
    never a later one than the capability it returns for a larger size,
    where the failure value [(seL4_CPtr)-1] counts as later than every
    capability. *)
Theorem get_untyped_monotone P info size1 size2 c1 c2 :
  wf_platform P → wf_untyped P info →
  0 ≤ size1 ≤ size2 → size2 ≤ INT_MAX →
  get_untyped_scan P info size1 = Some c1 →
  get_untyped_scan P info size2 = Some c2 →
  c1 ≤ c2.
Proof.
  intros HP Hwf Hle Hmax H1 H2.
  rewrite (get_untyped_scan_first_fit P HP) in H1, H2 by (auto; lia).
  injection H1 as <-. injection H2 as <-.
  pose proof (no_untyped_eq P HP) as Hno.
  pose proof (two_pow_word P HP) as Hpow.
  destruct Hwf as (Hse & Hend & Hlen & _).
  assert (length (grant_list info)
          = Z.to_nat (end_ (untyped info) - start (untyped info))) as Hlength.
  { unfold grant_list. rewrite length_take. lia. }
  unfold first_fit.
  destruct (list_find (λ d, size1 ≤ 2 ^ sizeBits d) (grant_list info))
    as [[k1 d1]|] eqn:Hfind1;
    destruct (list_find (λ d, size2 ≤ 2 ^ sizeBits d) (grant_list info))
    as [[k2 d2]|] eqn:Hfind2.
  - apply list_find_Some in Hfind1 as (_ & _ & Hbefore).
    apply list_find_Some in Hfind2 as (Hk2 & Hd2 & _).
    destruct (decide (k2 < k1)%nat) as [Hlt|]; [|lia].
    destruct (Hbefore k2 d2 Hk2 Hlt). lia.
  - apply list_find_Some in Hfind1 as (Hk1 & _).
    apply lookup_lt_Some in Hk1. unfold INT_MAX in *. lia.
  - apply list_find_Some in Hfind2 as (Hk2 & Hd2 & _).
    rewrite list_find_None, Forall_forall in Hfind1.
    destruct (Hfind1 d2); [|lia].
    apply list_elem_of_lookup. eauto.
  - lia.
Qed.

Lemma get_untyped_monotone_witness : 50 ≤ 51.
Proof.
  apply (get_untyped_monotone sample_platform sample_info 4096 65536 50 51).
  - exact sample_platform_wf.
  - exact sample_info_wf.
  - lia.
  - unfold INT_MAX. lia.
  - reflexivity.
  - reflexivity.
Defined.
